(* Verification of the Fiber lineage model of Kronos-Program/zoros:
   - src/source/challenges/visualization/o4-mini-high/fiber.js
     (classes Fiber, WarpFiber, WeftFiber);
   - filterFibers of the FiberCardViewer component (src/unnamed/part_004);
   - the transcription stub src/source/services/whisper/transcriptionService.ts.

   JavaScript strings are modelled as sequences of UTF-16 code units
   below 256 (the Latin-1 range), one Rocq [ascii] per code unit. *)

From Stdlib Require Import String Ascii ZArith.
From stdpp Require Import base gmap list strings.

Set Warnings "-register-all".

(* ------------------------------------------------------------------ *)
(** * JavaScript string primitives *)
Module JsString.

(** [String.prototype.toLowerCase] on code units below 256: the upper
    case letters of that range are A-Z (65-90) and 192-222 without the
    multiplication sign 215; each maps to the code unit 32 above it. *)
Definition char_toLowerCase (c : ascii) : ascii :=
  let n := nat_of_ascii c in
  if ((65 <=? n) && (n <=? 90)) || ((192 <=? n) && (n <=? 222) && negb (n =? 215))
  then ascii_of_nat (n + 32) else c.

Fixpoint toLowerCase (s : string) : string :=
  match s with
  | EmptyString => EmptyString
  | String c s' => String (char_toLowerCase c) (toLowerCase s')
  end.

(** [s.startsWith(q)] *)
Fixpoint startsWith (s q : string) {struct q} : bool :=
  match q, s with
  | EmptyString, _ => true
  | String c q', String d s' => Ascii.eqb c d && startsWith s' q'
  | String _ _, EmptyString => false
  end.

(** [s.includes(q)]: [q] occurs at some position of [s]. *)
Fixpoint includes (s q : string) : bool :=
  startsWith s q ||
  match s with
  | EmptyString => false
  | String _ s' => includes s' q
  end.

(** [q] occurs in [s]. *)
Definition substring (q s : string) : Prop :=
  exists pre suf, s = pre +:+ q +:+ suf.

(** Decimal digits of a natural number, as [Number.prototype.toString]
    prints a non-negative integer. *)
Fixpoint digits (fuel : nat) (n : N) (acc : string) : string :=
  match fuel with
  | O => acc
  | S f =>
      let acc' := String (ascii_of_N (48 + N.modulo n 10)) acc in
      if (n <? 10)%N then acc' else digits f (N.div n 10) acc'
  end.

Definition N_toString (n : N) : string := digits (S (N.size_nat n)) n EmptyString.

Definition Z_toString (z : Z) : string :=
  match z with
  | Zneg p => String "-" (N_toString (Npos p))
  | _ => N_toString (Z.to_N z)
  end.

End JsString.

(* ------------------------------------------------------------------ *)
(** * JSON values and [JSON.stringify(value, null, 2)] *)
Module Json.
Import JsString.

Inductive json :=
| JNull
| JBool (b : bool)
| JNum (z : Z)
| JStr (s : string)
| JArr (items : list json)
| JObj (members : list (string * json)).

Definition chr (n : nat) : string := String (ascii_of_nat n) EmptyString.
Definition dq : string := chr 34.
Definition nl : string := chr 10.
Definition gap : string := "  ".

Definition hex_digit (n : nat) : string :=
  if n <? 10 then chr (48 + n) else chr (87 + n).

(** QuoteJSONString, one code unit. *)
Definition escape_char (c : ascii) : string :=
  let n := nat_of_ascii c in
  if n =? 8 then "\b"
  else if n =? 9 then "\t"
  else if n =? 10 then "\n"
  else if n =? 12 then "\f"
  else if n =? 13 then "\r"
  else if n =? 34 then "\" +:+ dq
  else if n =? 92 then "\\"
  else if n <? 32 then "\u00" +:+ hex_digit (n / 16) +:+ hex_digit (n mod 16)
  else String c EmptyString.

Fixpoint escape (s : string) : string :=
  match s with
  | EmptyString => EmptyString
  | String c s' => escape_char c +:+ escape s'
  end.

Definition quote (s : string) : string := dq +:+ escape s +:+ dq.

Fixpoint join (sep : string) (l : list string) : string :=
  match l with
  | [] => EmptyString
  | [x] => x
  | x :: l' => x +:+ sep +:+ join sep l'
  end.

(** SerializeJSONArray / SerializeJSONObject with the gap of two spaces. *)
Definition wrap (opn cls ind : string) (parts : list string) : string :=
  match parts with
  | [] => opn +:+ cls
  | _ => let ind' := ind +:+ gap in
         opn +:+ nl +:+ ind' +:+ join ("," +:+ nl +:+ ind') parts +:+ nl +:+ ind +:+ cls
  end.

Fixpoint str (ind : string) (v : json) {struct v} : string :=
  match v with
  | JNull => "null"
  | JBool b => if b then "true" else "false"
  | JNum z => Z_toString z
  | JStr s => quote s
  | JArr vs =>
      wrap "[" "]" ind
        ((fix items (vs : list json) : list string :=
            match vs with
            | [] => []
            | v :: vs' => str (ind +:+ gap) v :: items vs'
            end) vs)
  | JObj ms =>
      wrap "{" "}" ind
        ((fix members (ms : list (string * json)) : list string :=
            match ms with
            | [] => []
            | (k, v) :: ms' => (quote k +:+ ": " +:+ str (ind +:+ gap) v) :: members ms'
            end) ms)
  end.

(** [JSON.stringify(v, null, 2)] *)
Definition stringify (v : json) : string := str EmptyString v.

(** The text [JSON.stringify] prints for a [null] context. *)
Definition null_context_text : string := quote "context" +:+ ": " +:+ "null".

End Json.

(* ------------------------------------------------------------------ *)
(** * fiber.js: the classes Fiber, WarpFiber and WeftFiber *)
Module FiberJs.
Import Json.

(** The three classes of fiber.js. *)
Inductive class_name := Fiber | WarpFiber | WeftFiber.

(** [class WarpFiber extends Fiber {}], [class WeftFiber extends Fiber {}] *)
Definition extends (c : class_name) : option class_name :=
  match c with
  | Fiber => None
  | WarpFiber | WeftFiber => Some Fiber
  end.

Inductive method := transform_m | addMarker_m | exportLineage_m.

(** Methods written in each class body: all three in [Fiber], none in
    the empty bodies of [WarpFiber] and [WeftFiber]. *)
Definition own_method (c : class_name) (m : method) : bool :=
  match c with
  | Fiber => true
  | WarpFiber | WeftFiber => false
  end.

(** Method lookup along the prototype chain; the chain has depth at most 2. *)
Fixpoint resolve (fuel : nat) (c : class_name) (m : method) : option class_name :=
  match fuel with
  | O => None
  | S f =>
      if own_method c m then Some c
      else match extends c with
           | Some p => resolve f p m
           | None => None
           end
  end.

Definition lookup_method (c : class_name) (m : method) : option class_name :=
  resolve 3 c m.

(** A history entry: [{ stage: 'start', color }] has no [context]
    property ([context = None]); [{ stage: type, color, context }] has one. *)
Record HistoryEntry := {
  stage : string;
  entry_color : string;
  context : option json
}.

(** A Fiber object: its class (prototype) and its four own properties. *)
Record FiberObj := {
  cls : class_name;
  id : string;
  color : string;
  history : list HistoryEntry;
  markers : list string
}.

Abbreviation loc := nat.
Abbreviation heap := (gmap nat FiberObj).

(** The values the methods return: [this], or a string. *)
Inductive value := VRef (l : loc) | VStr (s : string).

(** [constructor(id, colorStart = 'gold')]; [colorStart = None] is the
    argument omitted (or [undefined]). *)
Definition constructor (c : class_name) (id_ : string) (colorStart : option string) : FiberObj :=
  let color_ := default "gold" colorStart in
  {| cls := c; id := id_; color := color_;
     history := [{| stage := "start"; entry_color := color_; context := None |}];
     markers := [] |}.

(** [new C(id, colorStart)]: a fresh object.  The implicit constructors of
    WarpFiber and WeftFiber call [super(...args)]. *)
Definition new_fiber (h : heap) (c : class_name) (id_ : string) (colorStart : option string)
  : heap * loc :=
  let l := fresh (dom h) in (<[l := constructor c id_ colorStart]> h, l).

(** [transform(type, color, context = null)] *)
Definition Fiber_transform (h : heap) (this : loc) (o : FiberObj)
    (type color_ : string) (context_ : option json) : heap * value :=
  let context_ := default JNull context_ in
  let o' := {| cls := cls o; id := id o; color := color_;
               history := history o ++ [{| stage := type; entry_color := color_;
                                           context := Some context_ |}];
               markers := markers o |} in
  (<[this := o']> h, VRef this).

(** [addMarker(markerType)] *)
Definition Fiber_addMarker (h : heap) (this : loc) (o : FiberObj) (markerType : string)
  : heap * value :=
  let o' := {| cls := cls o; id := id o; color := color o; history := history o;
               markers := markers o ++ [markerType] |} in
  (<[this := o']> h, VRef this).

Definition entry_json (e : HistoryEntry) : json :=
  JObj ([("stage", JStr (stage e)); ("color", JStr (entry_color e))] ++
        match context e with Some c => [("context", c)] | None => [] end).

(** The object [{ id, history, markers }] that exportLineage serialises. *)
Definition lineage_json (o : FiberObj) : json :=
  JObj [("id", JStr (id o));
        ("history", JArr (map entry_json (history o)));
        ("markers", JArr (map JStr (markers o)))].

(** [exportLineage()] *)
Definition Fiber_exportLineage (h : heap) (this : loc) (o : FiberObj) : heap * value :=
  (h, VStr (stringify (lineage_json o))).

(** A method call on a fiber. *)
Inductive call :=
| transform (type color : string) (context : option json)
| addMarker (markerType : string)
| exportLineage.

Definition method_of (c : call) : method :=
  match c with
  | transform _ _ _ => transform_m
  | addMarker _ => addMarker_m
  | exportLineage => exportLineage_m
  end.

(** The body a class provides for a call. *)
Definition body (defining : class_name) (h : heap) (this : loc) (o : FiberObj) (c : call)
  : option (heap * value) :=
  match defining with
  | Fiber =>
      Some match c with
           | transform t col ctx => Fiber_transform h this o t col ctx
           | addMarker m => Fiber_addMarker h this o m
           | exportLineage => Fiber_exportLineage h this o
           end
  | WarpFiber | WeftFiber => None
  end.

(** [this.m(args)]: read the object, find the method through its class. *)
Definition exec_call (h : heap) (this : loc) (c : call) : option (heap * value) :=
  match h !! this with
  | None => None
  | Some o =>
      match lookup_method (cls o) (method_of c) with
      | Some d => body d h this o c
      | None => None
      end
  end.

(** A sequence of calls [f.m1(..); f.m2(..); ...] on one fiber [f]. *)
Fixpoint run (h : heap) (l : loc) (cs : list call) : option (heap * list value) :=
  match cs with
  | [] => Some (h, [])
  | c :: cs' =>
      match exec_call h l c with
      | None => None
      | Some (h', v) =>
          match run h' l cs' with
          | None => None
          | Some (h'', vs) => Some (h'', v :: vs)
          end
      end
  end.

Definition count_transforms (cs : list call) : nat :=
  length (List.filter (fun c => match c with transform _ _ _ => true | _ => false end) cs).

(** The state the claims compare: id, current color, history, markers. *)
Definition fiber_state (o : FiberObj) : string * string * list HistoryEntry * list string :=
  (id o, color o, history o, markers o).

Definition last_label (o : FiberObj) : option string :=
  option_map entry_color (last (history o)).

(** The entry [transform] appends. *)
Definition appended (t col : string) (ctx : option json) : HistoryEntry :=
  {| stage := t; entry_color := col; context := Some (default JNull ctx) |}.

(** The entry carries a [context] property. *)
Definition context_present (e : HistoryEntry) : Prop := context e <> None.

End FiberJs.

(* ------------------------------------------------------------------ *)
(** * FiberCardViewer: filterFibers *)
Module CardViewer.
Import JsString.

(** [interface Fiber] of useZorosStore.tsx; [tags] is [None] when the
    object received from the backend has no [tags] property. *)
Record Fiber := {
  id : string;
  content : string;
  tags : option string;
  created_at : string;
  source : string
}.

(** [(f.tags || '')] *)
Definition tags_or_empty (f : Fiber) : string :=
  match tags f with
  | Some t => t
  | None => EmptyString
  end.

(** [filterFibers(list, query)] *)
Definition filterFibers (list_ : list Fiber) (query : string) : list Fiber :=
  let q := toLowerCase query in
  List.filter
    (fun f => includes (toLowerCase (content f)) q
              || includes (toLowerCase (tags_or_empty f)) q)
    list_.

(** The predicate of [list.filter] in [filterFibers], in [Prop]. *)
Definition matches (f : Fiber) (query : string) : Prop :=
  substring (toLowerCase query) (toLowerCase (content f)) \/
  substring (toLowerCase query) (toLowerCase (tags_or_empty f)).

Definition mk (c t : string) : Fiber :=
  {| id := EmptyString; content := c; tags := Some t;
     created_at := EmptyString; source := EmptyString |}.

Definition sample : list Fiber := [mk "hello world" "foo"; mk "another note" "bar"].

End CardViewer.

(* ------------------------------------------------------------------ *)
(** * transcriptionService.ts *)
Module Transcription.
Import JsString.

Record TranscriptionSegment := { seg_start : Z; seg_end : Z }.

Record TranscriptionResult := {
  text : string;
  confidence : Z;
  timestamps : list TranscriptionSegment
}.

(** [type AudioFormat = 'wav' | 'mp3' | 'ogg'] *)
Inductive AudioFormat := wav | mp3 | ogg.

Definition AudioFormat_string (f : AudioFormat) : string :=
  match f with wav => "wav" | mp3 => "mp3" | ogg => "ogg" end.

(** A settled promise. *)
Inductive promise (A : Type) := Resolved (a : A) | Rejected (err : string).
Arguments Resolved {A} a.
Arguments Rejected {A} err.

(** [fakeTranscription(dataLen)] *)
Definition fakeTranscription (dataLen : N) : TranscriptionResult :=
  {| text := "transcribed " +:+ N_toString dataLen +:+ " bytes";
     confidence := 1;
     timestamps := [] |}.

(** The file system read by [fs.readFile]. *)
Abbreviation filesystem := (gmap string (list Byte.byte)).

(** [transcribeAudioFile(filePath)] *)
Definition transcribeAudioFile (fs : filesystem) (filePath : string)
  : promise TranscriptionResult :=
  match fs !! filePath with
  | Some buf => Resolved (fakeTranscription (N.of_nat (length buf)))
  | None => Rejected "ENOENT"
  end.

(** [transcribeRawAudio(buffer, format)]:
    [const len = buffer.byteLength + format.length; // fake usage] *)
Definition transcribeRawAudio (buffer : list Byte.byte) (format : AudioFormat)
  : promise TranscriptionResult :=
  let len := (N.of_nat (length buffer) + N.of_nat (String.length (AudioFormat_string format)))%N in
  Resolved (fakeTranscription len).

End Transcription.

(* ------------------------------------------------------------------ *)
(** * weave.js: the class Weave *)
Module WeaveJs.
Import JsString Json FiberJs.

(** A cell of the pattern matrix: [false], or a letter of the tagline. *)
Abbreviation cell_value := (option ascii).

(** The properties of a Weave; [warp] is a JavaScript array that may have
    holes ([None]), [pattern] is [null] until generatePatternMatrix runs. *)
Record Weave := {
  cols : nat;
  rows : nat;
  cell : nat;
  warp : list (option loc);
  weftPasses : list (list loc);
  pattern : option (list (list cell_value))
}.

(** [constructor(cols=20, rows=12, cell=40)] *)
Definition Weave_constructor (cols_ rows_ cell_ : option nat) : Weave :=
  {| cols := default 20 cols_; rows := default 12 rows_; cell := default 40 cell_;
     warp := []; weftPasses := []; pattern := None |}.

(** [a[slot] = v] on a JavaScript array: past the end the array grows,
    the new slots before [slot] being holes. *)
Fixpoint array_set {A} (a : list (option A)) (slot : nat) (v : A) : list (option A) :=
  match a, slot with
  | [], O => [Some v]
  | [], S n => None :: array_set [] n v
  | _ :: a', O => Some v :: a'
  | x :: a', S n => x :: array_set a' n v
  end.

(** [f.transform(type, color)] with the result [this] of the call. *)
Definition call_transform (h : heap) (f : loc) (type color_ : string) : option (heap * loc) :=
  match exec_call h f (transform type color_ None) with
  | Some (h', VRef r) => Some (h', r)
  | _ => None
  end.

(** [addWarpFiber(fiber, slot)] *)
Definition addWarpFiber (h : heap) (w : Weave) (fiber : loc) (slot : nat) : option (heap * Weave) :=
  match call_transform h fiber "warp" "springgreen" with
  | Some (h', r) =>
      Some (h', {| cols := cols w; rows := rows w; cell := cell w;
                   warp := array_set (warp w) slot r;
                   weftPasses := weftPasses w; pattern := pattern w |})
  | None => None
  end.

(** [fibers.map(f => f.transform(type, color))], in order, on the shared heap. *)
Fixpoint map_transform (h : heap) (fibers : list loc) (type color_ : string)
  : option (heap * list loc) :=
  match fibers with
  | [] => Some (h, [])
  | f :: fs =>
      match call_transform h f type color_ with
      | Some (h1, r) =>
          match map_transform h1 fs type color_ with
          | Some (h2, rs) => Some (h2, r :: rs)
          | None => None
          end
      | None => None
      end
  end.

(** [addWeftPass(fibers)] *)
Definition addWeftPass (h : heap) (w : Weave) (fibers : list loc) : option (heap * Weave) :=
  match map_transform h fibers "weft" "darkgreen" with
  | Some (h', rs) =>
      Some (h', {| cols := cols w; rows := rows w; cell := cell w; warp := warp w;
                   weftPasses := weftPasses w ++ [rs]; pattern := pattern w |})
  | None => None
  end.

(** ['WEAVING WHAT MATTERS'.split('')] *)
Definition tagline : list ascii := list_ascii_of_string "WEAVING WHAT MATTERS".

(** [matrix[r][c] = v] *)
Definition set_cell (m : list (list cell_value)) (r c : nat) (v : ascii) : list (list cell_value) :=
  alter (fun row => <[c := Some v]> row) r m.

(** [draws k] is the outcome of [Math.random() < 0.05] at the k-th call of
    [Math.random]; the loop state is (matrix, idx, number of calls made). *)
Fixpoint loop_c (draws : nat -> bool) (r c n : nat) (m : list (list cell_value)) (idx k : nat)
  : list (list cell_value) * nat * nat :=
  match n with
  | O => (m, idx, k)
  | S n' =>
      if idx <? length tagline then
        if draws k then
          loop_c draws r (S c) n' (set_cell m r c (nth idx tagline " "%char)) (S idx) (S k)
        else loop_c draws r (S c) n' m idx (S k)
      else loop_c draws r (S c) n' m idx k
  end.

Fixpoint loop_r (draws : nat -> bool) (cols_ r n : nat) (m : list (list cell_value)) (idx k : nat)
  : list (list cell_value) * nat * nat :=
  match n with
  | O => (m, idx, k)
  | S n' =>
      let '(m', idx', k') := loop_c draws r 0 cols_ m idx k in
      loop_r draws cols_ (S r) n' m' idx' k'
  end.

(** [generatePatternMatrix()]: the new weave and the returned matrix. *)
Definition generatePatternMatrix (draws : nat -> bool) (w : Weave) : Weave * list (list cell_value) :=
  let matrix := replicate (rows w) (replicate (cols w) None) in
  let '(m, _, _) := loop_r draws (cols w) 0 (rows w) matrix 0 0 in
  ({| cols := cols w; rows := rows w; cell := cell w; warp := warp w;
      weftPasses := weftPasses w; pattern := Some m |}, m).

(** The letters placed in a matrix, in row-major order. *)
Definition letters (m : list (list cell_value)) : list ascii := omap (fun x => x) (concat m).

(** [this.warp[i]?.color || '#004d00']: the stroke style of warp line [i]
    in [draw]. *)
Definition warp_stroke (h : heap) (w : Weave) (i : nat) : string :=
  match mjoin (warp w !! i) with
  | Some l =>
      match h !! l with
      | Some o => match color o with EmptyString => "#004d00" | c => c end
      | None => "#004d00"
      end
  | None => "#004d00"
  end.

(** The main script: [for (i < n) weave.addWarpFiber(new WarpFiber(`w${i}`, 'springgreen'), i)],
    from slot [i]. *)
Fixpoint setup_warp (h : heap) (w : Weave) (i n : nat) : option (heap * Weave) :=
  match n with
  | O => Some (h, w)
  | S n' =>
      let '(h1, f) := new_fiber h WarpFiber ("w" +:+ N_toString (N.of_nat i)) (Some "springgreen") in
      match addWarpFiber h1 w f i with
      | Some (h2, w2) => setup_warp h2 w2 (S i) n'
      | None => None
      end
  end.

(** The fiber after [transform(type, color)] with the context omitted. *)
Definition transformed (type color_ : string) (o : FiberObj) : FiberObj :=
  {| cls := cls o; id := id o; color := color_;
     history := history o ++ [{| stage := type; entry_color := color_; context := Some JNull |}];
     markers := markers o |}.

(** The warp fiber the main script stores in slot [i]. *)
Definition warp_fiber_after_setup (i : nat) : FiberObj :=
  transformed "warp" "springgreen"
    (constructor WarpFiber ("w" +:+ N_toString (N.of_nat i)) (Some "springgreen")).

(** Loop invariant of generatePatternMatrix at row-major position [p]
    with [idx] letters placed: the matrix is [R] rows of [C] cells, the
    cells from [p] on are all [false], and the cells before [p] hold the
    first [idx] letters of the tagline in order. *)
Definition pat_inv (R C : nat) (m : list (list cell_value)) (p idx : nat) : Prop :=
  length m = R /\ Forall (fun row => length row = C) m /\ idx <= length tagline /\
  exists pre, concat m = pre ++ replicate (R * C - p) None /\ length pre = p /\
              omap (fun x => x) pre = take idx tagline.

(** The id [`p${p}-${j}`] of the weft fibers of the main script. *)
Definition weft_id (p j : nat) : string :=
  "p" +:+ N_toString (N.of_nat p) +:+ "-" +:+ N_toString (N.of_nat j).

(** [for (j < n) pass.push(new WeftFiber(`p${p}-${j}`))], from [j]. *)
Fixpoint make_pass (h : heap) (p j n : nat) : heap * list loc :=
  match n with
  | O => (h, [])
  | S n' =>
      let '(h1, f) := new_fiber h WeftFiber (weft_id p j) None in
      let '(h2, fs) := make_pass h1 p (S j) n' in
      (h2, f :: fs)
  end.

(** The main script: [for (p < n) { const pass = []; ...; weave.addWeftPass(pass); }],
    from pass [p]. *)
Fixpoint setup_weft (h : heap) (w : Weave) (p n : nat) : option (heap * Weave) :=
  match n with
  | O => Some (h, w)
  | S n' =>
      let '(h1, pass) := make_pass h p 0 (cols w) in
      match addWeftPass h1 w pass with
      | Some (h2, w2) => setup_weft h2 w2 (S p) n'
      | None => None
      end
  end.

(** [pass[0]?.color || '#002200']: the stroke style of a weft pass in [draw]. *)
Definition weft_stroke (h : heap) (pass : list loc) : string :=
  match head pass with
  | Some l =>
      match h !! l with
      | Some o => match color o with EmptyString => "#002200" | c => c end
      | None => "#002200"
      end
  | None => "#002200"
  end.

(** The weft fiber the main script stores at position [j] of pass [p]. *)
Definition weft_fiber_after_setup (p j : nat) : FiberObj :=
  transformed "weft" "darkgreen" (constructor WeftFiber (weft_id p j) None).

(** [for (let i=0;i<n;i++) fibers.push(new Fiber(`f${i}`))], from [i]. *)
Fixpoint make_fibers (h : heap) (i n : nat) : heap * list loc :=
  match n with
  | O => (h, [])
  | S n' =>
      let '(h1, f) := new_fiber h Fiber ("f" +:+ N_toString (N.of_nat i)) None in
      let '(h2, fs) := make_fibers h1 (S i) n' in
      (h2, f :: fs)
  end.

(** The main script of fiber.js up to [weave.generatePatternMatrix()]:
    the ten fibers, the weave [new Weave(30, 20, cell)], its warp and its
    weft.  [cell_] stands for [Math.min(canvas.width/35, canvas.height/25)];
    the Spinner holds no fiber. *)
Definition main_setup (draws : nat -> bool) (h : heap) (cell_ : nat)
  : option (heap * list loc * Weave) :=
  let '(h1, fibers) := make_fibers h 0 10 in
  let weave := Weave_constructor (Some 30) (Some 20) (Some cell_) in
  match setup_warp h1 weave 0 (cols weave) with
  | Some (h2, w2) =>
      match setup_weft h2 w2 0 (rows w2) with
      | Some (h3, w3) => let '(w4, _) := generatePatternMatrix draws w3 in Some (h3, fibers, w4)
      | None => None
      end
  | None => None
  end.

(** A heap holding one fiber, [new Fiber('f1')], at location 0. *)
Definition heap1 : heap := {[0 := constructor Fiber "f1" None]}.

End WeaveJs.

(* ------------------------------------------------------------------ *)
(** * FiberCardViewer: reordering by drag and drop *)
Module CardViewerDrop.
Import CardViewer.

(** [arr.splice(start, 1)]: the removed elements and the array left. *)
Definition splice_remove1 {A} (l : list A) (start : nat) : list A * list A :=
  (take 1 (drop start l), take start l ++ drop (S start) l).

(** [arr.splice(start, 0, x)]: [start] past the end inserts at the end. *)
Definition splice_insert {A} (l : list A) (start : nat) (x : A) : list A :=
  take start l ++ x :: drop start l.

(** The PATCH request [/api/threads/${selectedThread}/reorder] with body
    [{ order: newOrder.map(f => f.id) }]. *)
Record ReorderRequest := { thread : string; order : list string }.

(** What a drop does: nothing (early return); [setFibers(newOrder)] (an
    entry [None] is [undefined]) and [setDragIndex(null)], with the
    request if a thread is selected; or the same state updates followed
    by a TypeError thrown by [f.id] on [undefined]. *)
Inductive DropOutcome :=
| Ignored
| Reordered (newOrder : list (option Fiber)) (request : option ReorderRequest)
| ReorderedThenThrew (newOrder : list (option Fiber)).

(** [onDrop(idx)]; [selectedThread] is tested for truthiness, so the empty
    string counts as no thread. *)
Definition onDrop (dragIndex : option nat) (idx : nat) (fibers : list Fiber)
    (selectedThread : option string) : DropOutcome :=
  match dragIndex with
  | None => Ignored
  | Some d =>
      if d =? idx then Ignored else
      let '(removed, rest) := splice_remove1 fibers d in
      let newOrder := splice_insert (map Some rest) idx (head removed) in
      match selectedThread with
      | Some (String _ _ as t) =>
          match mapM (option_map id) newOrder with
          | Some ids => Reordered newOrder (Some {| thread := t; order := ids |})
          | None => ReorderedThenThrew newOrder
          end
      | _ => Reordered newOrder None
      end
  end.

(** The list after moving the element at [d] to position [idx]. *)
Definition move {A} (l : list A) (d idx : nat) (x : A) : list A :=
  splice_insert (take d l ++ drop (S d) l) idx x.

End CardViewerDrop.

(* ================================================================== *)
(** * Lemmas on strings *)
Module StringFacts.
Import JsString.

Lemma append_nil (s : string) : EmptyString +:+ s = s.
Proof. reflexivity. Qed.

Lemma append_cons (c : ascii) (s t : string) : String c s +:+ t = String c (s +:+ t).
Proof. reflexivity. Qed.

Lemma append_empty_r (s : string) : s +:+ EmptyString = s.
Proof. induction s as [|c s IH]; [reflexivity | now rewrite append_cons, IH]. Qed.

Lemma append_assoc' (a b c : string) : (a +:+ b) +:+ c = a +:+ b +:+ c.
Proof. induction a as [|x a IH]; [reflexivity | now rewrite !append_cons, IH]. Qed.

Lemma startsWith_spec (s q : string) :
  startsWith s q = true <-> exists suf, s = q +:+ suf.
Proof.
  revert s; induction q as [|c q IH]; intros s; simpl.
  - split; [intros _; now exists s | reflexivity].
  - destruct s as [|d s].
    + split; [discriminate | intros [suf H]; discriminate].
    + rewrite andb_true_iff, Ascii.eqb_eq, IH.
      split.
      * intros [-> [suf ->]]. now exists suf.
      * intros [suf H]. injection H as -> ->. split; [reflexivity | now exists suf].
Qed.

Lemma includes_spec (s q : string) : includes s q = true <-> substring q s.
Proof.
  unfold substring; induction s as [|c s IH]; simpl.
  - rewrite orb_false_r, startsWith_spec. split.
    + intros [suf H]. now exists EmptyString, suf.
    + intros [pre [suf H]]. destruct pre; [now exists suf | discriminate].
  - rewrite orb_true_iff, startsWith_spec, IH. split.
    + intros [[suf H] | [pre [suf H]]].
      * now exists EmptyString, suf.
      * exists (String c pre), suf. simpl. now rewrite H.
    + intros [pre [suf H]]. destruct pre as [|d pre].
      * left. now exists suf.
      * right. injection H as _ H. now exists pre, suf.
Qed.

Lemma substring_empty (s : string) : substring EmptyString s.
Proof. now exists EmptyString, s. Qed.

Lemma substring_of_empty (q : string) : substring q EmptyString -> q = EmptyString.
Proof.
  intros [pre [suf H]]. destruct pre; [|discriminate]. destruct q; [reflexivity|discriminate].
Qed.

Lemma substring_refl (s : string) : substring s s.
Proof. exists EmptyString, EmptyString. simpl. now rewrite append_empty_r. Qed.

Lemma substring_trans (a b c : string) : substring a b -> substring b c -> substring a c.
Proof.
  intros [p1 [s1 ->]] [p2 [s2 ->]].
  exists (p2 +:+ p1), (s1 +:+ s2). now rewrite !append_assoc'.
Qed.

Lemma substring_app_l (a b c : string) : substring a b -> substring a (b +:+ c).
Proof. intros [p [s ->]]. exists p, (s +:+ c). now rewrite !append_assoc'. Qed.

Lemma substring_app_r (a b c : string) : substring a c -> substring a (b +:+ c).
Proof. intros [p [s ->]]. exists (b +:+ p), s. now rewrite !append_assoc'. Qed.

End StringFacts.

(* ================================================================== *)
(** * filterFibers *)
Module CardViewerProofs.
Import JsString StringFacts CardViewer.

Lemma filterFibers_cons (f : Fiber) (l : list Fiber) (q : string) :
  filterFibers (f :: l) q =
  if includes (toLowerCase (content f)) (toLowerCase q)
     || includes (toLowerCase (tags_or_empty f)) (toLowerCase q)
  then f :: filterFibers l q else filterFibers l q.
Proof. reflexivity. Qed.

Lemma test_matches (f : Fiber) (q : string) :
  (includes (toLowerCase (content f)) (toLowerCase q)
   || includes (toLowerCase (tags_or_empty f)) (toLowerCase q)) = true <-> matches f q.
Proof. unfold matches. now rewrite orb_true_iff, !includes_spec. Qed.

Lemma filterFibers_length (l : list Fiber) (q : string) :
  length (filterFibers l q) <= length l.
Proof.
  induction l as [|f l IH]; [simpl; lia|].
  rewrite filterFibers_cons. destruct (_ || _); simpl; lia.
Qed.

Lemma cons_not_sublist (f : Fiber) (l : list Fiber) (q : string) :
  filterFibers l q <> f :: filterFibers l q.
Proof.
  intros H. pose proof (f_equal length H) as E. simpl in E. lia.
Qed.

Lemma filterFibers_keep (f : Fiber) (l : list Fiber) (q : string) :
  filterFibers (f :: l) q = f :: filterFibers l q <-> matches f q.
Proof.
  rewrite <- test_matches, filterFibers_cons.
  destruct (_ || _); split; try easy.
  intros H; exfalso; exact (cons_not_sublist f l q H).
Qed.

Lemma filterFibers_drop (f : Fiber) (l : list Fiber) (q : string) :
  filterFibers (f :: l) q = filterFibers l q <-> ~ matches f q.
Proof.
  rewrite <- test_matches, filterFibers_cons.
  destruct (_ || _); split; try easy.
  intros H; exfalso; exact (cons_not_sublist f l q (eq_sym H)).
Qed.

Lemma startsWith_empty (s : string) : startsWith s EmptyString = true.
Proof. reflexivity. Qed.

Lemma includes_empty (s : string) : includes s EmptyString = true.
Proof. destruct s; reflexivity. Qed.

Lemma filterFibers_empty_query (l : list Fiber) : filterFibers l EmptyString = l.
Proof.
  induction l as [|f l IH]; [reflexivity|].
  rewrite filterFibers_cons. simpl toLowerCase. rewrite includes_empty. simpl. now rewrite IH.
Qed.

(** C4 *)
(** [filterFibers list q] keeps a unit, in place, exactly when the lowercased
    [q] occurs in its lowercased [content] or in its lowercased [tags]; this
    determines the result as the order-preserving subsequence of those
    units.  The empty query keeps every unit, and on the example of the
    spec the query "bar" keeps exactly the second unit. *)
Theorem filterFibers_spec :
  (forall q : string, filterFibers [] q = []) /\
  (forall (i c t ca src : string) (l : list Fiber) (q : string),
     let f := {| id := i; content := c; tags := Some t; created_at := ca; source := src |} in
     (filterFibers (f :: l) q = f :: filterFibers l q <->
        substring (toLowerCase q) (toLowerCase c) \/ substring (toLowerCase q) (toLowerCase t)) /\
     (filterFibers (f :: l) q = filterFibers l q <->
        ~ (substring (toLowerCase q) (toLowerCase c) \/ substring (toLowerCase q) (toLowerCase t)))) /\
  (forall l : list Fiber, filterFibers l EmptyString = l) /\
  filterFibers sample "bar" = [mk "another note" "bar"].
Proof.
  split; [reflexivity|].
  split; [|split; [exact filterFibers_empty_query | reflexivity]].
  intros i c t ca src l q f. split.
  - exact (filterFibers_keep f l q).
  - exact (filterFibers_drop f l q).
Qed.

Lemma toLowerCase_empty : toLowerCase EmptyString = EmptyString.
Proof. reflexivity. Qed.

(** C9 *)
(** A unit whose [tags] property is missing or empty is filtered as if its
    tags were the empty string: it is kept exactly when the lowercased
    query occurs in its lowercased [content] (so always by the empty
    query); [filterFibers] is a total function, it has no failure case. *)
Theorem filterFibers_missing_tags (i c ca src : string) (tg : option string)
    (Htg : tg = None \/ tg = Some EmptyString) (l : list Fiber) (q : string) :
  let f := {| id := i; content := c; tags := tg; created_at := ca; source := src |} in
  (filterFibers (f :: l) q = f :: filterFibers l q <->
     substring (toLowerCase q) (toLowerCase c)) /\
  (filterFibers (f :: l) q = filterFibers l q <->
     ~ substring (toLowerCase q) (toLowerCase c)) /\
  filterFibers (f :: l) EmptyString = f :: l.
Proof.
  intros f.
  assert (Hm : matches f q <-> substring (toLowerCase q) (toLowerCase c)).
  { unfold matches. simpl content.
    assert (Ht : tags_or_empty f = EmptyString)
      by (unfold tags_or_empty; simpl; destruct Htg as [-> | ->]; reflexivity).
    rewrite Ht, toLowerCase_empty. split.
    - intros [H | H]; [exact H|].
      apply substring_of_empty in H. rewrite H. apply substring_empty.
    - intros H; now left. }
  split; [rewrite filterFibers_keep; exact Hm|].
  split; [rewrite filterFibers_drop, Hm; reflexivity|].
  apply filterFibers_empty_query.
Qed.

Lemma filterFibers_missing_tags_witness :
  ((None : option string) = None \/ None = Some EmptyString) /\
  filterFibers [{| id := "1"; content := "Hello"; tags := None;
                   created_at := EmptyString; source := EmptyString |}] "ell"
  = [{| id := "1"; content := "Hello"; tags := None;
        created_at := EmptyString; source := EmptyString |}].
Proof.
  split; [left; reflexivity|].
  apply (proj2 (proj1 (filterFibers_missing_tags "1" "Hello" EmptyString EmptyString None
           (or_introl eq_refl) [] "ell"))).
  exists "h", "o". reflexivity.
Defined.

End CardViewerProofs.

(* ================================================================== *)
(** * Lemmas on the Fiber methods *)
Module FiberFacts.
Import Json FiberJs.

Lemma lookup_method_Fiber (c : class_name) (m : method) : lookup_method c m = Some Fiber.
Proof. destruct c, m; reflexivity. Qed.

Lemma exec_call_at (h : heap) (l : loc) (o : FiberObj) (c : call) :
  h !! l = Some o -> exec_call h l c = body Fiber h l o c.
Proof. intros H. unfold exec_call. now rewrite H, lookup_method_Fiber. Qed.

Lemma exec_call_step (h : heap) (l : loc) (o : FiberObj) (c : call) :
  h !! l = Some o ->
  exists h' v o', exec_call h l c = Some (h', v) /\ h' !! l = Some o' /\
    cls o' = cls o /\ id o' = id o /\
    match c with
    | transform t col ctx => history o' = history o ++ [appended t col ctx] /\ color o' = col
    | _ => history o' = history o /\ color o' = color o
    end.
Proof.
  intros H. rewrite (exec_call_at h l o c H).
  destruct c as [t col ctx | m |]; simpl.
  - eexists _, _, _. split; [reflexivity|]. rewrite lookup_insert_eq. eauto.
  - eexists _, _, _. split; [reflexivity|]. rewrite lookup_insert_eq. eauto.
  - eexists _, _, _. split; [reflexivity|]. eauto.
Qed.

Lemma run_cons (h : heap) (l : loc) (c : call) (cs : list call) :
  run h l (c :: cs) =
  match exec_call h l c with
  | None => None
  | Some (h', v) =>
      match run h' l cs with
      | None => None
      | Some (h'', vs) => Some (h'', v :: vs)
      end
  end.
Proof. reflexivity. Qed.

Lemma run_app (h : heap) (l : loc) (pre suf : list call) :
  run h l (pre ++ suf) =
  match run h l pre with
  | Some (h1, vs1) =>
      match run h1 l suf with
      | Some (h2, vs2) => Some (h2, vs1 ++ vs2)
      | None => None
      end
  | None => None
  end.
Proof.
  revert h; induction pre as [|c pre IH]; intros h; simpl.
  - destruct (run h l suf) as [[h2 vs2]|]; reflexivity.
  - destruct (exec_call h l c) as [[h' v]|]; [|reflexivity].
    rewrite IH. destruct (run h' l pre) as [[h1 vs1]|]; [|reflexivity].
    destruct (run h1 l suf) as [[h2 vs2]|]; reflexivity.
Qed.

Lemma count_transforms_cons (c : call) (cs : list call) :
  count_transforms (c :: cs) =
  match c with transform _ _ _ => S (count_transforms cs) | _ => count_transforms cs end.
Proof. destruct c; reflexivity. Qed.

(** Invariant of the fiber at [l] along any sequence of calls. *)
Lemma run_inv (cs : list call) :
  forall (h : heap) (l : loc) (o : FiberObj),
    h !! l = Some o -> last_label o = Some (color o) ->
    exists h' vs o', run h l cs = Some (h', vs) /\ h' !! l = Some o' /\
      last_label o' = Some (color o') /\
      history o `prefix_of` history o' /\
      length (history o') = length (history o) + count_transforms cs /\
      cls o' = cls o /\ id o' = id o.
Proof.
  induction cs as [|c cs IH]; intros h l o Hl Hinv.
  - exists h, [], o. simpl. repeat split; auto; lia.
  - destruct (exec_call_step h l o c Hl) as (h1 & v & o1 & Hex & Hl1 & Hc1 & Hi1 & Hc).
    assert (Hinv1 : last_label o1 = Some (color o1) /\ history o `prefix_of` history o1 /\
                    length (history o1) = length (history o) +
                      match c with transform _ _ _ => 1 | _ => 0 end).
    { destruct c as [t col ctx | m |]; destruct Hc as [Hh Hcol];
        unfold last_label; rewrite Hh, ?Hcol.
      - rewrite last_snoc, length_app. simpl. split; [reflexivity|].
        split; [apply prefix_app_r; reflexivity | reflexivity].
      - split; [exact Hinv|]. split; [reflexivity | lia].
      - split; [exact Hinv|]. split; [reflexivity | lia]. }
    destruct Hinv1 as (Hinv1 & Hpre1 & Hlen1).
    destruct (IH h1 l o1 Hl1 Hinv1) as (h2 & vs & o2 & Hrun & Hl2 & Hinv2 & Hpre2 & Hlen2 & Hc2 & Hi2).
    exists h2, (v :: vs), o2. simpl. rewrite Hex, Hrun.
    repeat split; auto.
    + etransitivity; eauto.
    + rewrite Hlen2, Hlen1, count_transforms_cons. destruct c; lia.
    + congruence.
    + congruence.
Qed.

Lemma constructor_inv (c : class_name) (id_ : string) (colorStart : option string) :
  last_label (constructor c id_ colorStart) = Some (color (constructor c id_ colorStart)).
Proof. reflexivity. Qed.

Lemma new_fiber_lookup (h : heap) (c : class_name) (id_ : string) (colorStart : option string) :
  let '(h1, l) := new_fiber h c id_ colorStart in
  h !! l = None /\ h1 = <[l := constructor c id_ colorStart]> h /\
  h1 !! l = Some (constructor c id_ colorStart).
Proof.
  unfold new_fiber. split; [|split; [reflexivity | apply lookup_insert_eq]].
  apply not_elem_of_dom, is_fresh.
Qed.

Lemma fiber_state_eq (oA oB : FiberObj) :
  fiber_state oA = fiber_state oB ->
  id oA = id oB /\ color oA = color oB /\ history oA = history oB /\ markers oA = markers oB.
Proof. unfold fiber_state. intros H. injection H as H1 H2 H3 H4. auto. Qed.

(** One mutating call on both sides, then the induction hypothesis. *)
Ltac sim_step IH hA hB l :=
  match goal with
  | |- context [run (<[l := ?xA]> hA) l ?cs] =>
    match goal with
    | |- context [run (<[l := ?xB]> hB) l cs] =>
      let Hs' := fresh in
      assert (Hs' : fiber_state xA = fiber_state xB)
        by (unfold fiber_state; simpl; congruence);
      destruct (IH _ _ l xA xB (lookup_insert_eq hA l _) (lookup_insert_eq hB l _) Hs')
        as (hA' & hB' & vs & oA' & oB' & HrA & HrB & HlA & HlB & Hs'');
      rewrite HrA, HrB; now exists hA', hB', (VRef l :: vs), oA', oB'
    end
  end.

(** Runs on two fibers with the same state, whatever their classes, return
    the same values and end in the same state. *)
Lemma run_sim (cs : list call) :
  forall (hA hB : heap) (l : loc) (oA oB : FiberObj),
    hA !! l = Some oA -> hB !! l = Some oB -> fiber_state oA = fiber_state oB ->
    exists hA' hB' vs oA' oB', run hA l cs = Some (hA', vs) /\ run hB l cs = Some (hB', vs) /\
      hA' !! l = Some oA' /\ hB' !! l = Some oB' /\ fiber_state oA' = fiber_state oB'.
Proof.
  induction cs as [|c cs IH]; intros hA hB l oA oB HA HB Hs.
  - now exists hA, hB, [], oA, oB.
  - destruct (fiber_state_eq oA oB Hs) as (Hi & Hc & Hh & Hm).
    rewrite !run_cons, (exec_call_at hA l oA c HA), (exec_call_at hB l oB c HB).
    destruct c as [t col ctx | m |]; simpl.
    + sim_step IH hA hB l.
    + sim_step IH hA hB l.
    + destruct (IH hA hB l oA oB HA HB Hs)
        as (hA' & hB' & vs & oA' & oB' & HrA & HrB & HlA & HlB & Hs').
      rewrite HrA, HrB. unfold lineage_json. rewrite Hi, Hh, Hm.
      now exists hA', hB', (VStr (stringify (JObj [("id", JStr (id oB));
                        ("history", JArr (map entry_json (history oB)));
                        ("markers", JArr (map JStr (markers oB)))])) :: vs), oA', oB'.
Qed.

(** Every entry after the first carries a [context] property. *)
Lemma run_ctx (cs : list call) :
  forall (h : heap) (l : loc) (o : FiberObj),
    h !! l = Some o -> history o <> [] -> Forall context_present (tail (history o)) ->
    exists h' vs o', run h l cs = Some (h', vs) /\ h' !! l = Some o' /\
      history o' <> [] /\ Forall context_present (tail (history o')).
Proof.
  induction cs as [|c cs IH]; intros h l o Hl Hne Hf.
  - now exists h, [], o.
  - destruct (exec_call_step h l o c Hl) as (h1 & v & o1 & Hex & Hl1 & _ & _ & Hc).
    assert (H1 : history o1 <> [] /\ Forall context_present (tail (history o1))).
    { destruct c as [t col ctx | m |]; destruct Hc as [Hh _]; rewrite Hh; [|auto|auto].
      destruct (history o) as [|x xs]; [contradiction|]. simpl. split; [discriminate|].
      apply Forall_app. split; [exact Hf|]. constructor; [|constructor].
      unfold context_present. simpl. discriminate. }
    destruct H1 as [Hne1 Hf1].
    destruct (IH h1 l o1 Hl1 Hne1 Hf1) as (h2 & vs & o2 & Hr & Hl2 & Hne2 & Hf2).
    exists h2, (v :: vs), o2. rewrite run_cons, Hex, Hr. auto.
Qed.

End FiberFacts.

(* ================================================================== *)
(** * Lemmas on [JSON.stringify] *)
Module JsonFacts.
Import JsString StringFacts Json FiberJs.

Lemma str_arr (ind : string) (vs : list json) :
  str ind (JArr vs) = wrap "[" "]" ind (map (str (ind +:+ gap)) vs).
Proof. reflexivity. Qed.

Lemma str_obj (ind : string) (ms : list (string * json)) :
  str ind (JObj ms) =
  wrap "{" "}" ind (map (fun kv => quote kv.1 +:+ ": " +:+ str (ind +:+ gap) kv.2) ms).
Proof.
  simpl. f_equal. induction ms as [|[k v] ms IH]; [reflexivity|].
  simpl. now rewrite IH.
Qed.

Lemma join_sub (sep x : string) (parts : list string) :
  In x parts -> substring x (join sep parts).
Proof.
  induction parts as [|y parts IH]; [contradiction|].
  intros [-> | Hin].
  - destruct parts as [|z parts]; [apply substring_refl|].
    change (join sep (x :: z :: parts)) with (x +:+ sep +:+ join sep (z :: parts)).
    apply substring_app_l, substring_refl.
  - destruct parts as [|z parts]; [contradiction|].
    change (join sep (y :: z :: parts)) with (y +:+ sep +:+ join sep (z :: parts)).
    apply substring_app_r, substring_app_r, IH, Hin.
Qed.

Lemma wrap_sub (opn cls ind x : string) (parts : list string) :
  In x parts -> substring x (wrap opn cls ind parts).
Proof.
  intros Hin. destruct parts as [|y parts]; [contradiction|]. unfold wrap.
  apply substring_app_r, substring_app_r, substring_app_r, substring_app_l, join_sub, Hin.
Qed.

Lemma entry_null_context (ind : string) (e : HistoryEntry) :
  context e = Some JNull -> substring null_context_text (str ind (entry_json e)).
Proof.
  intros Hc. unfold entry_json. rewrite Hc, str_obj. apply wrap_sub.
  apply in_map_iff. exists ("context", JNull). split; [reflexivity|].
  apply in_or_app. right. left. reflexivity.
Qed.

Lemma lineage_null_context (o : FiberObj) (e : HistoryEntry) :
  In e (history o) -> context e = Some JNull ->
  substring null_context_text (stringify (lineage_json o)).
Proof.
  intros Hin Hc. unfold stringify, lineage_json. rewrite str_obj.
  eapply substring_trans; [|apply wrap_sub; right; left; reflexivity]. cbn [fst snd].
  apply substring_app_r, substring_app_r. rewrite str_arr.
  eapply substring_trans; [apply (entry_null_context ((EmptyString +:+ gap) +:+ gap) e Hc)|].
  apply wrap_sub, in_map_iff. exists (entry_json e). split; [reflexivity|].
  apply in_map, Hin.
Qed.

End JsonFacts.

(* ================================================================== *)
(** * The Fiber claims *)
Module FiberProofs.
Import JsString Json FiberJs FiberFacts.

(** C1 *)
(** For a fiber made by [new C(id, colorStart)] and any sequence of
    transform / addMarker / exportLineage calls on it, every call succeeds,
    the history is non-empty, has length 1 plus the number of transform
    calls, its last entry carries the current color (stage tag), and the
    history after every prefix of the calls is a prefix of the final one
    (entries are only appended, never altered, reordered or dropped). *)
Theorem lineage_invariant (h : heap) (c : class_name) (id_ : string)
    (colorStart : option string) (cs : list call) :
  let '(h1, l) := new_fiber h c id_ colorStart in
  exists h2 vs o, run h1 l cs = Some (h2, vs) /\ h2 !! l = Some o /\
    history o <> [] /\
    length (history o) = 1 + count_transforms cs /\
    last_label o = Some (color o) /\
    forall k : nat, exists hk vk ok,
      run h1 l (firstn k cs) = Some (hk, vk) /\ hk !! l = Some ok /\
      history ok `prefix_of` history o /\
      length (history ok) = 1 + count_transforms (firstn k cs).
Proof.
  pose proof (new_fiber_lookup h c id_ colorStart) as Hn.
  destruct (new_fiber h c id_ colorStart) as [h1 l]. destruct Hn as (_ & _ & Hl).
  destruct (run_inv cs h1 l _ Hl (constructor_inv c id_ colorStart))
    as (h2 & vs & o & Hrun & Hl2 & Hinv & _ & Hlen & _).
  exists h2, vs, o. repeat split; auto.
  - intros E. unfold last_label in Hinv. rewrite E in Hinv. discriminate.
  - intros k.
    destruct (run_inv (firstn k cs) h1 l _ Hl (constructor_inv c id_ colorStart))
      as (hk & vk & ok & Hrk & Hlk & Hinvk & _ & Hlenk & _).
    exists hk, vk, ok. repeat split; auto.
    destruct (run_inv (skipn k cs) hk l ok Hlk Hinvk)
      as (h3 & vs3 & o3 & Hr3 & Hl3 & _ & Hpre3 & _).
    pose proof (run_app h1 l (firstn k cs) (skipn k cs)) as Happ.
    rewrite firstn_skipn, Hrun, Hrk, Hr3 in Happ.
    injection Happ as <- _. rewrite Hl2 in Hl3. injection Hl3 as ->. exact Hpre3.
Qed.

(** C2 *)
(** [f.transform(type, color, context)] never fails: it appends exactly the
    entry [{stage: type, color, context}] (context [null] when omitted),
    sets the fiber's color to [color], keeps the earlier entries, the
    markers, the id and the class, changes no other object, and returns
    the same fiber [this]. *)
Theorem transform_spec (h : heap) (l : loc) (o : FiberObj) (type color_ : string)
    (ctx : option json) (Hl : h !! l = Some o) :
  exists o', exec_call h l (transform type color_ ctx) = Some (<[l := o']> h, VRef l) /\
    history o' = history o ++ [{| stage := type; entry_color := color_;
                                  context := Some (default JNull ctx) |}] /\
    color o' = color_ /\ last_label o' = Some color_ /\
    markers o' = markers o /\ id o' = id o /\ cls o' = cls o.
Proof.
  rewrite (exec_call_at h l o _ Hl). simpl.
  eexists. split; [reflexivity|]. simpl.
  repeat split. unfold last_label. simpl. now rewrite last_snoc.
Qed.

Lemma transform_spec_witness :
  ({[0 := constructor WarpFiber "w0" (Some "springgreen")]} : heap) !! 0
    = Some (constructor WarpFiber "w0" (Some "springgreen")) /\
  exists o', exec_call {[0 := constructor WarpFiber "w0" (Some "springgreen")]} 0
               (transform "warp" "springgreen" None)
             = Some (<[0 := o']> {[0 := constructor WarpFiber "w0" (Some "springgreen")]}, VRef 0) /\
    history o' = history (constructor WarpFiber "w0" (Some "springgreen")) ++
                 [{| stage := "warp"; entry_color := "springgreen"; context := Some JNull |}] /\
    color o' = "springgreen" /\ last_label o' = Some "springgreen" /\
    markers o' = [] /\ id o' = "w0" /\ cls o' = WarpFiber.
Proof.
  assert (H : ({[0 := constructor WarpFiber "w0" (Some "springgreen")]} : heap) !! 0
              = Some (constructor WarpFiber "w0" (Some "springgreen")))
    by apply lookup_singleton_eq.
  split; [exact H|].
  exact (transform_spec _ 0 _ "warp" "springgreen" None H).
Defined.

(** C3 *)
(** [new C(id, initial_label)] always succeeds and stores at a fresh
    location a fiber with the given id, color [initial_label], the single
    history entry [{stage: 'start', color: initial_label}] and no markers. *)
Theorem constructor_spec (h : heap) (c : class_name) (id_ initial_label : string) :
  let '(h1, l) := new_fiber h c id_ (Some initial_label) in
  h !! l = None /\
  exists o, h1 = <[l := o]> h /\ h1 !! l = Some o /\
    history o = [{| stage := "start"; entry_color := initial_label; context := None |}] /\
    length (history o) = 1 /\
    color o = initial_label /\ id o = id_ /\ markers o = [] /\ cls o = c.
Proof.
  pose proof (new_fiber_lookup h c id_ (Some initial_label)) as Hn.
  destruct (new_fiber h c id_ (Some initial_label)) as [h1 l].
  destruct Hn as (Hfresh & Hh1 & Hl). split; [exact Hfresh|].
  exists (constructor c id_ (Some initial_label)). repeat split; assumption.
Qed.

(** C5 *)
(** [f.addMarker(m)] never fails: it appends [m] to the markers, keeps the
    history, the color, the id and the class, and returns the same fiber;
    adding the same marker twice records it twice. *)
Theorem addMarker_spec (h : heap) (l : loc) (o : FiberObj) (m : string)
    (Hl : h !! l = Some o) :
  (exists o', exec_call h l (addMarker m) = Some (<[l := o']> h, VRef l) /\
     markers o' = markers o ++ [m] /\ history o' = history o /\
     color o' = color o /\ id o' = id o /\ cls o' = cls o) /\
  (exists o'', run h l [addMarker m; addMarker m] = Some (<[l := o'']> h, [VRef l; VRef l]) /\
     markers o'' = markers o ++ [m; m] /\ history o'' = history o /\ color o'' = color o).
Proof.
  split.
  - rewrite (exec_call_at h l o _ Hl). simpl. eexists. split; [reflexivity|]. repeat split.
  - simpl. rewrite (exec_call_at h l o _ Hl). simpl.
    rewrite (exec_call_at _ l _ _ (lookup_insert_eq h l _)). simpl.
    eexists. split; [rewrite insert_insert_eq; reflexivity|]. simpl.
    rewrite <- app_assoc. repeat split.
Qed.

Lemma addMarker_spec_witness :
  ({[3 := constructor Fiber "f3" None]} : heap) !! 3 = Some (constructor Fiber "f3" None) /\
  exists o', exec_call {[3 := constructor Fiber "f3" None]} 3 (addMarker "violet")
             = Some (<[3 := o']> {[3 := constructor Fiber "f3" None]}, VRef 3) /\
     markers o' = ["violet"] /\ history o' = history (constructor Fiber "f3" None) /\
     color o' = "gold" /\ id o' = "f3" /\ cls o' = Fiber.
Proof.
  assert (H : ({[3 := constructor Fiber "f3" None]} : heap) !! 3 = Some (constructor Fiber "f3" None))
    by apply lookup_singleton_eq.
  split; [exact H|].
  exact (proj1 (addMarker_spec _ 3 _ "violet" H)).
Defined.

(** C6 *)
(** [f.exportLineage()] never fails and changes nothing (the heap is
    returned unchanged); its result is [JSON.stringify] of the object
    [{id, history, markers}] of the fiber, so two consecutive calls return
    the same string. *)
Theorem exportLineage_spec (h : heap) (l : loc) (o : FiberObj) (Hl : h !! l = Some o) :
  exec_call h l exportLineage = Some (h, VStr (stringify (lineage_json o))) /\
  run h l [exportLineage; exportLineage] =
    Some (h, [VStr (stringify (lineage_json o)); VStr (stringify (lineage_json o))]) /\
  lineage_json o = JObj [("id", JStr (id o));
                         ("history", JArr (map entry_json (history o)));
                         ("markers", JArr (map JStr (markers o)))].
Proof.
  assert (E : exec_call h l exportLineage = Some (h, VStr (stringify (lineage_json o))))
    by (rewrite (exec_call_at h l o _ Hl); reflexivity).
  split; [exact E|]. split; [|reflexivity].
  rewrite run_cons, E, run_cons, E. reflexivity.
Qed.

Lemma exportLineage_spec_witness :
  ({[0 := constructor Fiber "f0" None]} : heap) !! 0 = Some (constructor Fiber "f0" None) /\
  exec_call {[0 := constructor Fiber "f0" None]} 0 exportLineage
    = Some ({[0 := constructor Fiber "f0" None]},
            VStr (stringify (lineage_json (constructor Fiber "f0" None)))).
Proof.
  assert (H : ({[0 := constructor Fiber "f0" None]} : heap) !! 0 = Some (constructor Fiber "f0" None))
    by apply lookup_singleton_eq.
  split; [exact H|].
  exact (proj1 (exportLineage_spec _ 0 _ H)).
Defined.

(** C8 *)
(** WarpFiber and WeftFiber override nothing: for the same constructor
    arguments and the same sequence of calls, a fiber of any of the three
    classes is stored at the same location, every call succeeds with the
    same return values (the same exportLineage strings) and the fibers end
    in the same state (id, color, history, markers). *)
Theorem subclasses_same_behaviour (c : class_name) (h : heap) (id_ : string)
    (colorStart : option string) (cs : list call) :
  let '(hF, lF) := new_fiber h Fiber id_ colorStart in
  let '(hC, lC) := new_fiber h c id_ colorStart in
  lC = lF /\
  exists hF' hC' vs oF oC,
    run hF lF cs = Some (hF', vs) /\ run hC lC cs = Some (hC', vs) /\
    hF' !! lF = Some oF /\ hC' !! lC = Some oC /\ fiber_state oF = fiber_state oC.
Proof.
  pose proof (new_fiber_lookup h Fiber id_ colorStart) as HF.
  pose proof (new_fiber_lookup h c id_ colorStart) as HC.
  assert (El : snd (new_fiber h c id_ colorStart) = snd (new_fiber h Fiber id_ colorStart))
    by reflexivity.
  destruct (new_fiber h Fiber id_ colorStart) as [hF lF].
  destruct (new_fiber h c id_ colorStart) as [hC lC]. simpl in El. subst lC.
  split; [reflexivity|].
  destruct HF as (_ & _ & HlF). destruct HC as (_ & _ & HlC).
  exact (run_sim cs hF hC lF _ _ HlF HlC eq_refl).
Qed.

(** C10 *)
(** A transform call without context records [context: null]: after any
    calls on a new fiber followed by [transform(type, color)] and
    [exportLineage()], the last history entry is
    [{stage: type, color, context: null}], every entry after the first
    carries a context property, and the exported text contains
    ["context": null]. *)
Theorem transform_null_context (h : heap) (c : class_name) (id_ : string)
    (colorStart : option string) (cs : list call) (type color_ : string) :
  let '(h1, l) := new_fiber h c id_ colorStart in
  exists h2 vs o s,
    run h1 l (cs ++ [transform type color_ None; exportLineage]) = Some (h2, vs) /\
    h2 !! l = Some o /\
    last (history o) = Some {| stage := type; entry_color := color_; context := Some JNull |} /\
    Forall context_present (tail (history o)) /\
    last vs = Some (VStr s) /\
    substring (dq +:+ "context" +:+ dq +:+ ": null") s.
Proof.
  pose proof (new_fiber_lookup h c id_ colorStart) as Hn.
  destruct (new_fiber h c id_ colorStart) as [h1 l]. destruct Hn as (_ & _ & Hl).
  destruct (run_ctx cs h1 l _ Hl ltac:(discriminate) ltac:(constructor))
    as (h2 & vs & o2 & Hr & Hl2 & Hne & Hf).
  set (e := {| stage := type; entry_color := color_; context := Some JNull |}).
  set (o := {| cls := cls o2; id := id o2; color := color_;
               history := history o2 ++ [e]; markers := markers o2 |}).
  exists (<[l := o]> h2), (vs ++ [VRef l; VStr (stringify (lineage_json o))]), o,
         (stringify (lineage_json o)).
  rewrite run_app, Hr, run_cons, (exec_call_at h2 l o2 _ Hl2).
  simpl body. unfold Fiber_transform. simpl default.
  rewrite run_cons, (exec_call_at _ l o _ (lookup_insert_eq h2 l o)).
  split; [reflexivity|]. split; [apply lookup_insert_eq|].
  split; [apply last_snoc|]. split.
  - simpl history. destruct (history o2) as [|x xs]; [contradiction|]. simpl.
    apply Forall_app. split; [exact Hf|]. constructor; [|constructor].
    unfold context_present. simpl. discriminate.
  - split.
    { replace (vs ++ [VRef l; VStr (stringify (lineage_json o))])
        with ((vs ++ [VRef l]) ++ [VStr (stringify (lineage_json o))])
        by (now rewrite <- app_assoc).
      apply last_snoc. }
    change (dq +:+ "context" +:+ dq +:+ ": null") with null_context_text.
    apply (JsonFacts.lineage_null_context o e); [|reflexivity].
    simpl history. apply in_or_app. right. left. reflexivity.
Qed.

End FiberProofs.

(* ================================================================== *)
(** * The transcription stub *)
Module TranscriptionProofs.
Import JsString Transcription.

Example N_toString_0 : N_toString 0 = "0".
Proof. reflexivity. Qed.

Example N_toString_1024 : N_toString 1024 = "1024".
Proof. reflexivity. Qed.

Lemma AudioFormat_length (f : AudioFormat) : String.length (AudioFormat_string f) = 3.
Proof. destruct f; reflexivity. Qed.

(** C7 (counterexample) *)
(** A 4-byte buffer given to [transcribeRawAudio] with the format 'wav' is
    reported as "transcribed 7 bytes", not "transcribed 4 bytes". *)
Lemma transcribeRawAudio_not_byte_count :
  exists r, transcribeRawAudio [Byte.x00; Byte.x00; Byte.x00; Byte.x00] wav = Resolved r /\
    text r = "transcribed 7 bytes" /\ text r <> "transcribed 4 bytes".
Proof.
  eexists. split; [reflexivity|]. split; [reflexivity|]. discriminate.
Qed.

(** C7 (amended) *)
(** Neither service runs a model.  [transcribeAudioFile] resolves with the
    text "transcribed n bytes", n the byte count of the file read (and
    rejects when the file cannot be read); [transcribeRawAudio] resolves
    with "transcribed n bytes" where n is the byte count of the buffer plus
    the length of the format name, i.e. the byte count plus 3.  Every
    result has confidence 1 and no timestamps. *)
Theorem transcription_stub (fs : filesystem) (filePath : string)
    (buffer : list Byte.byte) (format : AudioFormat) :
  transcribeRawAudio buffer format =
    Resolved {| text := "transcribed " +:+ N_toString (N.of_nat (length buffer + 3)) +:+ " bytes";
                confidence := 1; timestamps := [] |} /\
  match fs !! filePath with
  | Some buf =>
      transcribeAudioFile fs filePath =
        Resolved {| text := "transcribed " +:+ N_toString (N.of_nat (length buf)) +:+ " bytes";
                    confidence := 1; timestamps := [] |}
  | None => transcribeAudioFile fs filePath = Rejected "ENOENT"
  end.
Proof.
  split.
  - unfold transcribeRawAudio. rewrite AudioFormat_length, Nat2N.inj_add. reflexivity.
  - unfold transcribeAudioFile. destruct (fs !! filePath); reflexivity.
Qed.

End TranscriptionProofs.

(* ================================================================== *)
(** * Reordering fibers by drag and drop *)
Module CardViewerDropProofs.
Import CardViewer CardViewerDrop CardViewerProofs.

Lemma mapM_ids (l : list Fiber) :
  mapM (option_map CardViewer.id) (map Some l) = Some (map CardViewer.id l).
Proof. induction l as [|f l IH]; [reflexivity|]. simpl. now rewrite IH. Qed.

Lemma mapM_ids_undefined (l1 l2 : list (option Fiber)) :
  mapM (option_map CardViewer.id) (l1 ++ None :: l2) = None.
Proof.
  induction l1 as [|[f|] l1 IH]; simpl; [reflexivity| |reflexivity].
  now rewrite IH.
Qed.

Lemma map_splice_insert {A B} (g : A -> B) (l : list A) (i : nat) (x : A) :
  map g (splice_insert l i x) = splice_insert (map g l) i (g x).
Proof.
  unfold splice_insert. rewrite map_app. simpl. now rewrite <- !fmap_take, <- !fmap_drop.
Qed.


Lemma move_lookup {A} (l : list A) (d idx : nat) (x : A) :
  l !! d = Some x -> move l d idx x !! (min idx (length l - 1)) = Some x.
Proof.
  intros Hd. pose proof (lookup_lt_Some _ _ _ Hd) as Hlt.
  unfold move, splice_insert. apply list_lookup_middle.
  rewrite length_take, length_app, length_take, length_drop. lia.
Qed.



(** When the dragged index is past the end of the list, [splice] removes
    nothing and [undefined] is inserted at the drop position; with a
    thread selected, [f.id] on that [undefined] throws after the state
    has been updated. *)
Theorem onDrop_out_of_range (d idx : nat) (fibers : list Fiber) (t : string)
    (Hd : length fibers <= d) (Hne : d <> idx) (Ht : t <> EmptyString) :
  onDrop (Some d) idx fibers (Some t) =
    ReorderedThenThrew (splice_insert (map Some fibers) idx None) /\
  onDrop (Some d) idx fibers None =
    Reordered (splice_insert (map Some fibers) idx None) None.
Proof.
  unfold onDrop. apply Nat.eqb_neq in Hne. rewrite Hne.
  unfold splice_remove1. rewrite (drop_ge fibers d Hd), (take_ge fibers d Hd).
  rewrite (drop_ge fibers (S d) ltac:(lia)), app_nil_r.
  change (head (take 1 (@nil Fiber))) with (@None Fiber).
  split; [|reflexivity].
  destruct t as [|c t]; [contradiction|].
  unfold splice_insert. now rewrite mapM_ids_undefined.
Qed.

Lemma onDrop_out_of_range_witness :
  length sample <= 5 /\ 5 <> 0 /\ "t1" <> EmptyString /\
  onDrop (Some 5) 0 sample (Some "t1") =
    ReorderedThenThrew (None :: map Some sample).
Proof.
  assert (Ht : "t1" <> EmptyString) by discriminate.
  split; [simpl; lia|]. split; [lia|]. split; [exact Ht|].
  exact (proj1 (onDrop_out_of_range 5 0 sample "t1" ltac:(simpl; lia) ltac:(lia) Ht)).
Defined.

Lemma onDrop_in_range (d idx : nat) (fibers : list Fiber) (t : option string) (x : Fiber) :
  fibers !! d = Some x -> d <> idx ->
  exists req, onDrop (Some d) idx fibers t = Reordered (map Some (move fibers d idx x)) req.
Proof.
  intros Hx Hne. unfold onDrop. apply Nat.eqb_neq in Hne. rewrite Hne.
  unfold splice_remove1. rewrite (drop_S fibers x d Hx).
  change (head (take 1 (x :: drop (S d) fibers))) with (Some x).
  assert (E : splice_insert (map Some (take d fibers ++ drop (S d) fibers)) idx (Some x)
              = map Some (move fibers d idx x))
    by (unfold move; now rewrite map_splice_insert).
  rewrite E.
  destruct t as [[|c t]|]; [eexists; reflexivity| |eexists; reflexivity].
  rewrite mapM_ids. eexists; reflexivity.
Qed.

Lemma map_lookup_Some {A B} (g : A -> B) (l : list A) (k : nat) (y : A) :
  l !! k = Some y -> map g l !! k = Some (g y).
Proof.
  revert k; induction l as [|a l IH]; intros [|k] Hk; simpl in *; try discriminate.
  - congruence.
  - apply IH, Hk.
Qed.

(** The drag and drop indices are positions in the rendered list
    [filtered = filterFibers(fibers, filter)], but onDrop splices the
    unfiltered [fibers]: when the store's fiber at the dragged position is
    hidden by the search, the card put at the drop position is one that
    is not rendered at all, so not the card that was dragged. *)
Theorem onDrop_hidden_card (fibers : list Fiber) (filter : string) (i j : nat)
    (selectedThread : option string) (x : Fiber)
    (Hi : i < length (filterFibers fibers filter))
    (Hj : j < length (filterFibers fibers filter))
    (Hne : i <> j) (Hx : fibers !! i = Some x) (Hhidden : ~ matches x filter) :
  ~ In x (filterFibers fibers filter) /\
  filterFibers fibers filter !! i <> Some x /\
  exists newOrder req,
    onDrop (Some i) j fibers selectedThread = Reordered newOrder req /\
    newOrder !! j = Some (Some x).
Proof.
  assert (Hnin : ~ In x (filterFibers fibers filter)).
  { unfold filterFibers. rewrite filter_In. intros [_ Hm].
    apply Hhidden, test_matches, Hm. }
  split; [exact Hnin|].
  split.
  { intros Hfi. apply Hnin, list_elem_of_In, list_elem_of_lookup_2 with i. exact Hfi. }
  destruct (onDrop_in_range i j fibers selectedThread x Hx Hne) as [req Hdrop].
  exists (map Some (move fibers i j x)), req. split; [exact Hdrop|].
  apply map_lookup_Some.
  pose proof (filterFibers_length fibers filter) as Hlen.
  replace j with (min j (length fibers - 1)) at 1 by lia.
  apply move_lookup, Hx.
Qed.

Lemma onDrop_hidden_card_witness :
  let fibers := [mk "hidden" "zzz"; mk "hello" "foo"; mk "hello again" "bar"] in
  0 < length (filterFibers fibers "hello") /\ 1 < length (filterFibers fibers "hello") /\
  0 <> 1 /\ fibers !! 0 = Some (mk "hidden" "zzz") /\ ~ matches (mk "hidden" "zzz") "hello" /\
  exists newOrder req,
    onDrop (Some 0) 1 fibers None = Reordered newOrder req /\
    newOrder !! 1 = Some (Some (mk "hidden" "zzz")).
Proof.
  intros fibers.
  assert (Hh : ~ matches (mk "hidden" "zzz") "hello").
  { intros H. apply test_matches in H. vm_compute in H. discriminate. }
  assert (Hl : length (filterFibers fibers "hello") = 2) by (vm_compute; reflexivity).
  split; [lia|]. split; [lia|]. split; [lia|]. split; [reflexivity|]. split; [exact Hh|].
  exact (proj2 (proj2 (onDrop_hidden_card fibers "hello" 0 1 None (mk "hidden" "zzz")
           ltac:(lia) ltac:(lia) ltac:(lia) eq_refl Hh))).
Defined.

End CardViewerDropProofs.

(* ------------------------------------------------------------------ *)
(** * Weave: warp slots, weft passes, pattern matrix *)
Module WeaveProofs.
Import JsString Json FiberJs WeaveJs FiberFacts.

Lemma array_set_nil_lookup {A} (slot : nat) (v : A) (j : nat) :
  array_set [] slot v !! j =
  if j =? slot then Some (Some v) else if j <? slot then Some None else None.
Proof.
  revert j; induction slot as [|slot IH]; intros [|j]; simpl; try reflexivity.
  apply IH.
Qed.

(** [a[slot] = v]: slot [slot] holds [v]; below it the old entries stay,
    the new ones being holes; above it nothing changes. *)
Lemma array_set_lookup {A} (a : list (option A)) (slot : nat) (v : A) (j : nat) :
  array_set a slot v !! j =
  if j =? slot then Some (Some v)
  else match a !! j with
       | Some x => Some x
       | None => if j <? slot then Some None else None
       end.
Proof.
  revert slot j; induction a as [|x a IH]; intros slot j.
  - apply array_set_nil_lookup.
  - destruct slot as [|slot], j as [|j]; simpl;
      [reflexivity | destruct (a !! j); reflexivity | reflexivity | rewrite IH; reflexivity].
Qed.

Lemma array_set_end {A} (a : list (option A)) (v : A) :
  array_set a (length a) v = a ++ [Some v].
Proof. induction a as [|x a IH]; simpl; congruence. Qed.

Lemma call_transform_at (h : heap) (f : loc) (o : FiberObj) (type color_ : string) :
  h !! f = Some o ->
  call_transform h f type color_ = Some (<[f := transformed type color_ o]> h, f).
Proof. intros H. unfold call_transform. rewrite (exec_call_at h f o _ H). reflexivity. Qed.

Lemma warp_stroke_at (h : heap) (w : Weave) (i : nat) (l : loc) (o : FiberObj) :
  warp w !! i = Some (Some l) -> h !! l = Some o ->
  warp_stroke h w i = match color o with EmptyString => "#004d00" | c => c end.
Proof. intros Hw Ho. unfold warp_stroke. rewrite Hw. simpl. rewrite Ho. reflexivity. Qed.

Lemma warp_stroke_none (h : heap) (w : Weave) (i : nat) :
  warp w !! i = None -> warp_stroke h w i = "#004d00".
Proof. intros Hw. unfold warp_stroke. rewrite Hw. reflexivity. Qed.

(** addWarpFiber transforms the fiber in place (stage ['warp'], color
    ['springgreen'], context [null]) and stores the same object in slot
    [slot]; other slots keep their entries, and the slots between the old
    end of the array and [slot] become holes.  The warp line [slot] is
    then drawn in springgreen. *)
Theorem addWarpFiber_spec (h : heap) (w : Weave) (fiber : loc) (slot : nat) (o : FiberObj)
    (Hf : h !! fiber = Some o) :
  exists w',
    addWarpFiber h w fiber slot =
      Some (<[fiber := transformed "warp" "springgreen" o]> h, w') /\
    cols w' = cols w /\ rows w' = rows w /\ cell w' = cell w /\
    weftPasses w' = weftPasses w /\ pattern w' = pattern w /\
    warp w' !! slot = Some (Some fiber) /\
    (forall j, j <> slot ->
       warp w' !! j = match warp w !! j with
                      | Some x => Some x
                      | None => if j <? slot then Some None else None
                      end) /\
    warp_stroke (<[fiber := transformed "warp" "springgreen" o]> h) w' slot = "springgreen".
Proof.
  unfold addWarpFiber. rewrite (call_transform_at h fiber o _ _ Hf).
  eexists. split; [reflexivity|].
  assert (Hs : array_set (warp w) slot fiber !! slot = Some (Some fiber))
    by (rewrite array_set_lookup, Nat.eqb_refl; reflexivity).
  repeat split; try reflexivity.
  - exact Hs.
  - intros j Hj. simpl. rewrite array_set_lookup.
    apply Nat.eqb_neq in Hj. rewrite Hj. reflexivity.
  - rewrite (warp_stroke_at _ _ slot fiber (transformed "warp" "springgreen" o));
      [reflexivity | exact Hs | apply lookup_insert_eq].
Qed.

Lemma addWarpFiber_spec_witness :
  heap1 !! 0 = Some (constructor Fiber "f1" None) /\
  exists w', addWarpFiber heap1 (Weave_constructor None None None) 0 2 =
    Some (<[0 := transformed "warp" "springgreen" (constructor Fiber "f1" None)]>
            heap1, w') /\
    warp w' !! 0 = Some None /\ warp w' !! 1 = Some None /\ warp w' !! 2 = Some (Some 0).
Proof.
  assert (H0 : heap1 !! 0 = Some (constructor Fiber "f1" None))
    by (unfold heap1; apply lookup_singleton_eq).
  split; [exact H0|].
  destruct (addWarpFiber_spec _ (Weave_constructor None None None) 0 2 _ H0)
    as (w' & Hadd & _ & _ & _ & _ & _ & Hs & Hne & _).
  exists w'. split; [exact Hadd|].
  rewrite (Hne 0 ltac:(lia)), (Hne 1 ltac:(lia)). auto.
Defined.

Lemma map_transform_spec (type color_ : string) (fibers : list loc) :
  forall h : heap, Forall (fun f => is_Some (h !! f)) fibers ->
  exists h', map_transform h fibers type color_ = Some (h', fibers) /\
    forall l, h' !! l =
      option_map (Nat.iter (count_occ Nat.eq_dec fibers l) (transformed type color_)) (h !! l).
Proof.
  induction fibers as [|f fs IH]; intros h Hall.
  - exists h. split; [reflexivity|]. intros l. destruct (h !! l); reflexivity.
  - inversion Hall as [|? ? [o Ho] Hfs]; subst.
    assert (Hfs1 : Forall (fun g => is_Some (<[f := transformed type color_ o]> h !! g)) fs).
    { eapply Forall_impl; [exact Hfs|]. intros g Hg. destruct (decide (f = g)) as [->|Hne].
      - rewrite lookup_insert_eq. eauto.
      - rewrite lookup_insert_ne by exact Hne. exact Hg. }
    destruct (IH _ Hfs1) as (h2 & Hm & Hl).
    exists h2. cbn [map_transform]. rewrite (call_transform_at h f o _ _ Ho), Hm.
    split; [reflexivity|].
    intros l. rewrite Hl. destruct (Nat.eq_dec f l) as [->|Hne].
    + rewrite count_occ_cons_eq by reflexivity. rewrite lookup_insert_eq, Ho.
      cbn [option_map]. rewrite Nat.iter_succ_r. reflexivity.
    + rewrite count_occ_cons_neq by exact Hne. rewrite lookup_insert_ne by exact Hne.
      reflexivity.
Qed.

(** addWeftPass pushes the array of [map]'s results, which are the fibers
    themselves: every fiber is transformed in place (stage ['weft'], color
    ['darkgreen']) once per occurrence in the pass, and no other object
    changes. *)
Theorem addWeftPass_spec (h : heap) (w : Weave) (fibers : list loc)
    (Hall : Forall (fun f => is_Some (h !! f)) fibers) :
  exists h',
    addWeftPass h w fibers =
      Some (h', {| cols := cols w; rows := rows w; cell := cell w; warp := warp w;
                   weftPasses := weftPasses w ++ [fibers]; pattern := pattern w |}) /\
    forall l, h' !! l =
      option_map (Nat.iter (count_occ Nat.eq_dec fibers l) (transformed "weft" "darkgreen"))
        (h !! l).
Proof.
  destruct (map_transform_spec "weft" "darkgreen" fibers h Hall) as (h' & Hm & Hl).
  exists h'. unfold addWeftPass. rewrite Hm. split; [reflexivity | exact Hl].
Qed.

Lemma addWeftPass_spec_witness :
  Forall (fun f => is_Some (heap1 !! f)) [0; 0] /\
  exists h', addWeftPass heap1 (Weave_constructor None None None) [0; 0] =
      Some (h', {| cols := 20; rows := 12; cell := 40; warp := [];
                   weftPasses := [[0; 0]]; pattern := None |}) /\
    h' !! 0 = Some (transformed "weft" "darkgreen"
                      (transformed "weft" "darkgreen" (constructor Fiber "f1" None))).
Proof.
  assert (Hall : Forall (fun f => is_Some (heap1 !! f)) [0; 0]).
  { assert (H0 : is_Some (heap1 !! 0))
      by (unfold heap1; rewrite lookup_singleton_eq; eauto).
    repeat constructor; exact H0. }
  split; [exact Hall|].
  destruct (addWeftPass_spec _ (Weave_constructor None None None) [0; 0] Hall) as (h' & Hadd & Hl).
  exists h'. split; [exact Hadd|]. rewrite Hl. unfold heap1. rewrite lookup_singleton_eq.
  reflexivity.
Defined.

Lemma setup_warp_gen (n : nat) :
  forall (h : heap) (w : Weave) (i : nat),
    length (warp w) = i ->
    (forall j, j < i -> exists l, warp w !! j = Some (Some l) /\
                                  h !! l = Some (warp_fiber_after_setup j)) ->
    exists h' w', setup_warp h w i n = Some (h', w') /\
      cols w' = cols w /\ rows w' = rows w /\ cell w' = cell w /\
      weftPasses w' = weftPasses w /\ pattern w' = pattern w /\
      length (warp w') = i + n /\
      (forall j, j < i + n -> exists l, warp w' !! j = Some (Some l) /\
                                        h' !! l = Some (warp_fiber_after_setup j)) /\
      (forall l, is_Some (h !! l) -> h' !! l = h !! l).
Proof.
  induction n as [|n IH]; intros h w i Hlen Hslots.
  - exists h, w. rewrite Nat.add_0_r. repeat split; auto.
  - cbn [setup_warp new_fiber].
    set (f := fresh (dom h)).
    assert (Hfresh : h !! f = None) by apply not_elem_of_dom, is_fresh.
    unfold addWarpFiber. rewrite (call_transform_at _ f _ _ _ (lookup_insert_eq h f _)).
    rewrite insert_insert_eq. cbn beta iota.
    subst i.
    edestruct (IH (<[f := warp_fiber_after_setup (length (warp w))]> h)
                 {| cols := cols w; rows := rows w; cell := cell w;
                    warp := array_set (warp w) (length (warp w)) f;
                    weftPasses := weftPasses w; pattern := pattern w |} (S (length (warp w))))
      as (h' & w' & Hrun & Hc & Hr & Hce & Hwp & Hp & Hl & Hsl & Hfr).
    + simpl. rewrite array_set_end, length_app. simpl. lia.
    + intros j Hj. simpl. rewrite array_set_end.
      destruct (decide (j = length (warp w))) as [->|Hne].
      * exists f. split; [apply list_lookup_middle; reflexivity | apply lookup_insert_eq].
      * destruct (Hslots j ltac:(lia)) as (l & Hj1 & Hj2). exists l.
        rewrite lookup_app_l by lia. split; [exact Hj1|].
        rewrite lookup_insert_ne; [exact Hj2|]. intros ->. congruence.
    + exists h', w'. split; [exact Hrun|].
      split; [exact Hc|]. split; [exact Hr|]. split; [exact Hce|].
      split; [exact Hwp|]. split; [exact Hp|]. split; [rewrite Hl; lia|].
      split.
      * intros j Hj. apply Hsl. lia.
      * intros l [o Ho]. rewrite Hfr by (rewrite lookup_insert_ne; [eauto | congruence]).
        rewrite lookup_insert_ne; [reflexivity | congruence].
Qed.

(** The main script's setup loop on a new Weave: after
    [addWarpFiber(new WarpFiber(`w${i}`, 'springgreen'), i)] for [i < n]
    the warp array has exactly [n] filled slots, slot [i] holding a new
    WarpFiber with id [w<i>] whose history is the start entry and the
    warp entry, both springgreen; warp lines [i < n] are drawn in
    springgreen and the others in the default ['#004d00']; objects
    allocated before are untouched. *)
Theorem setup_warp_spec (h : heap) (cols_ rows_ cell_ : option nat) (n : nat) :
  exists h' w', setup_warp h (Weave_constructor cols_ rows_ cell_) 0 n = Some (h', w') /\
    cols w' = default 20 cols_ /\ rows w' = default 12 rows_ /\ cell w' = default 40 cell_ /\
    weftPasses w' = [] /\ pattern w' = None /\
    length (warp w') = n /\
    (forall i, i < n -> exists l, warp w' !! i = Some (Some l) /\
        h' !! l = Some (warp_fiber_after_setup i) /\
        cls (warp_fiber_after_setup i) = WarpFiber /\
        id (warp_fiber_after_setup i) = "w" +:+ N_toString (N.of_nat i) /\
        history (warp_fiber_after_setup i) =
          [{| stage := "start"; entry_color := "springgreen"; context := None |};
           {| stage := "warp"; entry_color := "springgreen"; context := Some JNull |}] /\
        warp_stroke h' w' i = "springgreen") /\
    (forall i, n <= i -> warp_stroke h' w' i = "#004d00") /\
    (forall l, is_Some (h !! l) -> h' !! l = h !! l).
Proof.
  destruct (setup_warp_gen n h (Weave_constructor cols_ rows_ cell_) 0 eq_refl
              ltac:(intros j Hj; lia))
    as (h' & w' & Hrun & Hc & Hr & Hce & Hwp & Hp & Hl & Hsl & Hfr).
  exists h', w'. split; [exact Hrun|].
  split; [exact Hc|]. split; [exact Hr|]. split; [exact Hce|].
  split; [exact Hwp|]. split; [exact Hp|]. split; [exact Hl|].
  split; [|split; [|exact Hfr]].
  - intros i Hi. destruct (Hsl i Hi) as (l & Hw & Hh). exists l.
    split; [exact Hw|]. split; [exact Hh|].
    split; [reflexivity|]. split; [reflexivity|]. split; [reflexivity|].
    rewrite (warp_stroke_at _ _ i l (warp_fiber_after_setup i)); [reflexivity | exact Hw | exact Hh].
  - intros i Hi. apply warp_stroke_none, lookup_ge_None. simpl in Hl. lia.
Qed.

Lemma concat_replicate_none (R C : nat) :
  concat (replicate R (replicate C (@None ascii))) = replicate (R * C) None.
Proof.
  induction R as [|R IH]; [reflexivity|]. simpl. rewrite IH, replicate_add. reflexivity.
Qed.

Lemma concat_set_cell (C : nat) (m : list (list cell_value)) (r c : nat) (v : ascii) :
  Forall (fun row => length row = C) m -> r < length m -> c < C ->
  concat (set_cell m r c v) = <[r * C + c := Some v]> (concat m).
Proof.
  unfold set_cell. revert r; induction m as [|row m IH]; intros r Hall Hr Hc;
    [simpl in Hr; lia|].
  inversion Hall as [|? ? Hrow Hm]; subst.
  destruct r as [|r].
  - change (alter ?g 0 (row :: m)) with (g row :: m).
    rewrite !concat_cons, Nat.mul_0_l, Nat.add_0_l, insert_app_l by lia. reflexivity.
  - change (alter ?g (S r) (row :: m)) with (row :: alter g r m).
    rewrite !concat_cons, IH by (auto; simpl in Hr; lia).
    replace (S r * length row + c) with (length row + (r * length row + c)) by lia.
    rewrite insert_app_r. reflexivity.
Qed.

Lemma insert_middle {A} (l l2 : list A) (x y : A) :
  <[length l := x]> (l ++ y :: l2) = l ++ x :: l2.
Proof.
  pose proof (insert_app_r l (y :: l2) 0 x) as H. rewrite Nat.add_0_r in H.
  rewrite H. reflexivity.
Qed.

Lemma pat_inv_skip (R C : nat) (m : list (list cell_value)) (p idx : nat) :
  p < R * C -> pat_inv R C m p idx -> pat_inv R C m (S p) idx.
Proof.
  intros Hp (Hl & Hrows & Hidx & pre & Hcat & Hpre & Hom).
  split; [exact Hl|]. split; [exact Hrows|]. split; [exact Hidx|].
  exists (pre ++ [None]). split; [|split].
  - rewrite Hcat, <- app_assoc. f_equal.
    replace (R * C - p) with (S (R * C - S p)) by lia. reflexivity.
  - rewrite length_app, Hpre. simpl. lia.
  - rewrite omap_app, Hom. simpl. apply app_nil_r.
Qed.

Lemma pat_inv_place (R C : nat) (m : list (list cell_value)) (r c idx : nat) :
  r < R -> c < C -> idx < length tagline -> pat_inv R C m (r * C + c) idx ->
  pat_inv R C (set_cell m r c (nth idx tagline " "%char)) (S (r * C + c)) (S idx).
Proof.
  intros Hr Hc Hidx (Hl & Hrows & _ & pre & Hcat & Hpre & Hom).
  destruct (lookup_lt_is_Some_2 tagline idx Hidx) as [a Ha].
  rewrite (nth_lookup_Some tagline idx " "%char a Ha).
  split; [unfold set_cell; rewrite length_alter; exact Hl|].
  split.
  { unfold set_cell. apply Forall_alter; [exact Hrows|].
    intros row _ Hrow. rewrite length_insert. exact Hrow. }
  split; [lia|].
  exists (pre ++ [Some a]). split; [|split].
  - rewrite (concat_set_cell C) by (auto; lia).
    assert (E : R * C - (r * C + c) = S (R * C - S (r * C + c))) by nia.
    rewrite Hcat, E, <- Hpre. simpl. rewrite insert_middle, <- app_assoc. reflexivity.
  - rewrite length_app, Hpre. simpl. lia.
  - rewrite omap_app, Hom, (take_S_r tagline idx a Ha). reflexivity.
Qed.

Lemma loop_c_inv (draws : nat -> bool) (R C r n : nat) :
  forall c m idx k, r < R -> c + n <= C -> pat_inv R C m (r * C + c) idx ->
  match loop_c draws r c n m idx k with
  | (m', idx', _) => pat_inv R C m' (r * C + c + n) idx'
  end.
Proof.
  induction n as [|n IH]; intros c m idx k Hr Hcn Hinv.
  - cbn [loop_c]. rewrite Nat.add_0_r. exact Hinv.
  - cbn [loop_c]. replace (r * C + c + S n) with (r * C + S c + n) by lia.
    assert (Hlt : r * C + c < R * C) by nia.
    destruct (idx <? length tagline) eqn:Ei; [destruct (draws k)|].
    + apply IH; [lia|lia|]. replace (r * C + S c) with (S (r * C + c)) by lia.
      apply pat_inv_place; [lia|lia| |exact Hinv]. now apply Nat.ltb_lt.
    + apply IH; [lia|lia|]. replace (r * C + S c) with (S (r * C + c)) by lia.
      now apply pat_inv_skip.
    + apply IH; [lia|lia|]. replace (r * C + S c) with (S (r * C + c)) by lia.
      now apply pat_inv_skip.
Qed.

Lemma loop_r_inv (draws : nat -> bool) (R C n : nat) :
  forall r m idx k, r + n <= R -> pat_inv R C m (r * C) idx ->
  match loop_r draws C r n m idx k with
  | (m', idx', _) => pat_inv R C m' ((r + n) * C) idx'
  end.
Proof.
  induction n as [|n IH]; intros r m idx k Hrn Hinv.
  - cbn [loop_r]. rewrite Nat.add_0_r. exact Hinv.
  - cbn [loop_r].
    pose proof (loop_c_inv draws R C r C 0 m idx k ltac:(lia) ltac:(lia)
                  ltac:(rewrite Nat.add_0_r; exact Hinv)) as Hc.
    destruct (loop_c draws r 0 C m idx k) as [[m1 idx1] k1].
    cbn beta iota.
    replace ((r + S n) * C) with ((S r + n) * C) by (f_equal; lia).
    apply IH; [lia|]. replace (S r * C) with (r * C + 0 + C) by nia. exact Hc.
Qed.

Lemma generatePatternMatrix_inv (draws : nat -> bool) (w : Weave) :
  let '(w', m) := generatePatternMatrix draws w in
  pattern w' = Some m /\ cols w' = cols w /\ rows w' = rows w /\ cell w' = cell w /\
  warp w' = warp w /\ weftPasses w' = weftPasses w /\
  length m = rows w /\ Forall (fun row => length row = cols w) m /\
  exists n, n <= length tagline /\ letters m = take n tagline.
Proof.
  unfold generatePatternMatrix.
  assert (H0 : pat_inv (rows w) (cols w) (replicate (rows w) (replicate (cols w) None))
                 (0 * cols w) 0).
  { split; [apply length_replicate|].
    split; [apply Forall_replicate, length_replicate|].
    split; [lia|].
    exists []. rewrite concat_replicate_none. simpl. rewrite Nat.sub_0_r.
    repeat split. }
  pose proof (loop_r_inv draws (rows w) (cols w) (rows w) 0 _ 0 0 ltac:(lia) H0) as H.
  destruct (loop_r draws (cols w) 0 (rows w) _ 0 0) as [[m idx] k].
  cbn beta iota.
  destruct H as (Hl & Hrows & Hidx & pre & Hcat & Hpre & Hom).
  split; [reflexivity|]. do 5 (split; [reflexivity|]).
  split; [exact Hl|]. split; [exact Hrows|].
  exists idx. split; [exact Hidx|]. unfold letters.
  rewrite Hcat, Nat.add_0_l, Nat.sub_diag, app_nil_r. exact Hom.
Qed.

(** Whatever [Math.random] returns, generatePatternMatrix stores and
    returns a [rows] by [cols] matrix whose cells are [false] except for
    letters that, read row by row, spell a prefix of
    'WEAVING WHAT MATTERS'; the other properties of the weave are kept. *)
Theorem generatePatternMatrix_spec (draws : nat -> bool) (w : Weave) :
  let '(w', m) := generatePatternMatrix draws w in
  pattern w' = Some m /\ cols w' = cols w /\ rows w' = rows w /\ cell w' = cell w /\
  warp w' = warp w /\ weftPasses w' = weftPasses w /\
  length m = rows w /\ Forall (fun row => length row = cols w) m /\
  exists n, n <= length tagline /\ letters m = take n tagline.
Proof. apply generatePatternMatrix_inv. Qed.

Lemma make_pass_spec (n : nat) :
  forall (h : heap) (p j : nat),
  let '(h1, pass) := make_pass h p j n in
  length pass = n /\ List.NoDup pass /\ (forall l, In l pass -> h !! l = None) /\
  (forall k l, pass !! k = Some l ->
     h1 !! l = Some (constructor WeftFiber (weft_id p (j + k)) None)) /\
  (forall l, is_Some (h !! l) -> h1 !! l = h !! l).
Proof.
  induction n as [|n IH]; intros h p j.
  - cbn [make_pass]. split; [reflexivity|]. split; [constructor|].
    split; [intros l []|]. split; [intros k l Hk; rewrite lookup_nil in Hk; discriminate|].
    reflexivity.
  - cbn [make_pass new_fiber].
    set (f := fresh (dom h)).
    assert (Hfresh : h !! f = None) by apply not_elem_of_dom, is_fresh.
    set (h1 := <[f := constructor WeftFiber (weft_id p j) None]> h).
    pose proof (IH h1 p (S j)) as Hm.
    destruct (make_pass h1 p (S j) n) as [h2 fs].
    destruct Hm as (Hlen & Hnd & Hnew & Hl & Hfr).
    assert (Hf1 : h1 !! f = Some (constructor WeftFiber (weft_id p j) None))
      by apply lookup_insert_eq.
    assert (Hfs : forall l, In l fs -> l <> f /\ h !! l = None).
    { intros l Hin. pose proof (Hnew l Hin) as Hl1.
      assert (Hne : l <> f) by (intros ->; congruence).
      split; [exact Hne|]. unfold h1 in Hl1. rewrite lookup_insert_ne in Hl1 by congruence.
      exact Hl1. }
    split; [simpl; congruence|].
    split.
    { constructor; [|exact Hnd]. intros Hin. destruct (Hfs f Hin) as [Hne _]. congruence. }
    split.
    { intros l [<-|Hin]; [exact Hfresh|]. apply (Hfs l Hin). }
    split.
    { intros [|k] l Hk; simpl in Hk.
      - injection Hk as <-. rewrite Hfr by (rewrite Hf1; eauto).
        rewrite Nat.add_0_r. exact Hf1.
      - rewrite (Hl k l Hk). do 3 f_equal. lia. }
    intros l [o Ho]. assert (Hne : f <> l) by congruence.
    rewrite Hfr; unfold h1; rewrite lookup_insert_ne by exact Hne; [reflexivity | eauto].
Qed.

Lemma setup_weft_gen (n : nat) :
  forall (h : heap) (w : Weave) (p : nat),
    length (weftPasses w) = p ->
    (forall q pass, weftPasses w !! q = Some pass ->
       length pass = cols w /\
       forall k l, pass !! k = Some l -> h !! l = Some (weft_fiber_after_setup q k)) ->
    exists h' w', setup_weft h w p n = Some (h', w') /\
      cols w' = cols w /\ rows w' = rows w /\ cell w' = cell w /\
      warp w' = warp w /\ pattern w' = pattern w /\
      length (weftPasses w') = p + n /\
      (forall q pass, weftPasses w' !! q = Some pass ->
         length pass = cols w /\
         forall k l, pass !! k = Some l -> h' !! l = Some (weft_fiber_after_setup q k)) /\
      (forall l, is_Some (h !! l) -> h' !! l = h !! l).
Proof.
  induction n as [|n IH]; intros h w p Hlen Hpasses.
  - exists h, w. rewrite Nat.add_0_r.
    do 7 (split; [reflexivity || assumption|]). split; [exact Hpasses|]. reflexivity.
  - cbn [setup_weft].
    pose proof (make_pass_spec (cols w) h p 0) as Hm.
    destruct (make_pass h p 0 (cols w)) as [h1 pass].
    destruct Hm as (Hplen & Hnd & Hnew & Hpl & Hfr1).
    assert (Hall : Forall (fun f => is_Some (h1 !! f)) pass).
    { apply Forall_forall. intros l Hin.
      apply list_elem_of_lookup_1 in Hin.
      destruct Hin as [k Hk]. rewrite (Hpl k l Hk). eauto. }
    destruct (map_transform_spec "weft" "darkgreen" pass h1 Hall) as (h2 & Hmt & Hh2).
    unfold addWeftPass. rewrite Hmt. cbn beta iota.
    (* objects outside the pass are unchanged *)
    assert (Hout : forall l, is_Some (h !! l) -> h2 !! l = h !! l).
    { intros l Hl. assert (Hnin : ~ In l pass)
        by (intros Hin; rewrite (Hnew l Hin) in Hl; destruct Hl; discriminate).
      rewrite Hh2, (proj1 (count_occ_not_In Nat.eq_dec pass l) Hnin).
      rewrite (Hfr1 l Hl). destruct (h !! l); reflexivity. }
    edestruct (IH h2 {| cols := cols w; rows := rows w; cell := cell w; warp := warp w;
                        weftPasses := weftPasses w ++ [pass]; pattern := pattern w |} (S p))
      as (h' & w' & Hrun & Hc & Hr & Hce & Hwa & Hp & Hl & Hps & Hfr).
    + simpl. rewrite length_app. simpl. lia.
    + simpl. intros q pass' Hq.
      destruct (decide (q < length (weftPasses w))) as [Hlt|Hge].
      * rewrite lookup_app_l in Hq by exact Hlt.
        destruct (Hpasses q pass' Hq) as [Hlen' Hk]. split; [exact Hlen'|].
        intros k l Hkl. pose proof (Hk k l Hkl) as Hhl.
        rewrite Hout by (rewrite Hhl; eauto). exact Hhl.
      * rewrite lookup_app_r in Hq by lia.
        destruct (q - length (weftPasses w)) as [|i] eqn:Ei; simpl in Hq;
          [|rewrite lookup_nil in Hq; discriminate].
        injection Hq as <-. assert (q = p) as -> by lia.
        split; [exact Hplen|]. intros k l Hkl.
        assert (Hin : In l pass) by (apply list_elem_of_In, list_elem_of_lookup_2 with k; exact Hkl).
        rewrite Hh2, (proj1 (NoDup_count_occ' Nat.eq_dec pass) Hnd l Hin), (Hpl k l Hkl).
        reflexivity.
    + exists h', w'. split; [exact Hrun|].
      split; [exact Hc|]. split; [exact Hr|]. split; [exact Hce|].
      split; [exact Hwa|]. split; [exact Hp|]. split; [rewrite Hl; lia|].
      split; [exact Hps|].
      intros l Hl'. rewrite Hfr by (rewrite Hout; exact Hl'). apply Hout, Hl'.
Qed.

(** The main script's weft loop on a weave with no passes yet: it pushes
    [n] passes; pass [q] holds [cols] new WeftFibers, the fiber at [k]
    having id [p<q>-<k>] and history the start entry (gold) and one weft
    entry (darkgreen, context null), each fiber being transformed exactly
    once; each pass is drawn in darkgreen, or in the default ['#002200']
    when [cols] is 0.  Objects allocated before are untouched. *)
Theorem setup_weft_spec (h : heap) (w : Weave) (n : nat) (Hw : weftPasses w = []) :
  exists h' w', setup_weft h w 0 n = Some (h', w') /\
    cols w' = cols w /\ rows w' = rows w /\ cell w' = cell w /\
    warp w' = warp w /\ pattern w' = pattern w /\
    length (weftPasses w') = n /\
    (forall q, q < n -> exists pass, weftPasses w' !! q = Some pass /\
       length pass = cols w /\
       (forall k l, pass !! k = Some l ->
          h' !! l = Some (weft_fiber_after_setup q k) /\
          cls (weft_fiber_after_setup q k) = WeftFiber /\
          id (weft_fiber_after_setup q k) = weft_id q k /\
          history (weft_fiber_after_setup q k) =
            [{| stage := "start"; entry_color := "gold"; context := None |};
             {| stage := "weft"; entry_color := "darkgreen"; context := Some JNull |}]) /\
       weft_stroke h' pass = if cols w =? 0 then "#002200" else "darkgreen") /\
    (forall l, is_Some (h !! l) -> h' !! l = h !! l).
Proof.
  destruct (setup_weft_gen n h w 0 ltac:(rewrite Hw; reflexivity)
              ltac:(intros q pass Hq; rewrite Hw, lookup_nil in Hq; discriminate))
    as (h' & w' & Hrun & Hc & Hr & Hce & Hwa & Hp & Hl & Hps & Hfr).
  exists h', w'. split; [exact Hrun|].
  split; [exact Hc|]. split; [exact Hr|]. split; [exact Hce|].
  split; [exact Hwa|]. split; [exact Hp|]. split; [exact Hl|].
  split; [|exact Hfr].
  intros q Hq. destruct (lookup_lt_is_Some_2 (weftPasses w') q ltac:(lia)) as [pass Hpass].
  destruct (Hps q pass Hpass) as [Hlen Hk].
  exists pass. split; [exact Hpass|]. split; [exact Hlen|]. split.
  - intros k l Hkl. split; [exact (Hk k l Hkl)|]. repeat split.
  - unfold weft_stroke. destruct pass as [|l pass'].
    + simpl in Hlen. rewrite <- Hlen. reflexivity.
    + simpl in Hlen. rewrite <- Hlen. simpl. rewrite (Hk 0 l eq_refl). reflexivity.
Qed.

Lemma setup_weft_spec_witness :
  weftPasses (Weave_constructor (Some 2) None None) = [] /\
  exists h' w', setup_weft ∅ (Weave_constructor (Some 2) None None) 0 3 = Some (h', w') /\
    length (weftPasses w') = 3 /\
    forall q, q < 3 -> exists pass, weftPasses w' !! q = Some pass /\ length pass = 2 /\
      weft_stroke h' pass = "darkgreen".
Proof.
  split; [reflexivity|].
  destruct (setup_weft_spec ∅ (Weave_constructor (Some 2) None None) 3 eq_refl)
    as (h' & w' & Hrun & _ & _ & _ & _ & _ & Hl & Hq & _).
  exists h', w'. split; [exact Hrun|]. split; [exact Hl|].
  intros q Hq3. destruct (Hq q Hq3) as (pass & Hp & Hlen & _ & Hs).
  exists pass. split; [exact Hp|]. split; [exact Hlen|]. exact Hs.
Defined.

Lemma make_fibers_spec (n : nat) :
  forall (h : heap) (i : nat),
  let '(h1, fs) := make_fibers h i n in
  length fs = n /\
  (forall k l, fs !! k = Some l ->
     h1 !! l = Some (constructor Fiber ("f" +:+ N_toString (N.of_nat (i + k))) None)) /\
  (forall l, is_Some (h !! l) -> h1 !! l = h !! l).
Proof.
  induction n as [|n IH]; intros h i.
  - cbn [make_fibers]. split; [reflexivity|].
    split; [intros k l Hk; rewrite lookup_nil in Hk; discriminate | reflexivity].
  - cbn [make_fibers new_fiber].
    set (f := fresh (dom h)).
    assert (Hfresh : h !! f = None) by apply not_elem_of_dom, is_fresh.
    set (h1 := <[f := constructor Fiber ("f" +:+ N_toString (N.of_nat i)) None]> h).
    pose proof (IH h1 (S i)) as Hm.
    destruct (make_fibers h1 (S i) n) as [h2 fs].
    destruct Hm as (Hlen & Hl & Hfr).
    assert (Hf1 : h1 !! f = Some (constructor Fiber ("f" +:+ N_toString (N.of_nat i)) None))
      by apply lookup_insert_eq.
    split; [simpl; congruence|].
    split.
    { intros [|k] l Hk; simpl in Hk.
      - injection Hk as <-. rewrite Hfr by (rewrite Hf1; eauto).
        rewrite Nat.add_0_r. exact Hf1.
      - rewrite (Hl k l Hk). do 5 f_equal. lia. }
    intros l [o Ho]. assert (Hne : f <> l) by congruence.
    rewrite Hfr; unfold h1; rewrite lookup_insert_ne by exact Hne; [reflexivity | eauto].
Qed.

(** After the setup of the main script of fiber.js, the ten fibers
    [f0..f9] that the export button serialises are still new: the weave
    setup never touches them, so each exports its start entry only.  The
    30 warp lines are drawn in springgreen, the 20 weft passes in
    darkgreen, and the pattern is a 20 by 30 matrix spelling a prefix of
    the tagline. *)
Theorem main_setup_spec (draws : nat -> bool) (h : heap) (cell_ : nat) :
  exists h' fibers w, main_setup draws h cell_ = Some (h', fibers, w) /\
    length fibers = 10 /\
    (forall i l, fibers !! i = Some l ->
       h' !! l = Some (constructor Fiber ("f" +:+ N_toString (N.of_nat i)) None) /\
       exec_call h' l exportLineage =
         Some (h', VStr (stringify
                          (lineage_json (constructor Fiber ("f" +:+ N_toString (N.of_nat i)) None))))) /\
    cols w = 30 /\ rows w = 20 /\
    (forall i, i < 30 -> warp_stroke h' w i = "springgreen") /\
    length (weftPasses w) = 20 /\
    (forall q pass, weftPasses w !! q = Some pass -> weft_stroke h' pass = "darkgreen") /\
    exists m, pattern w = Some m /\ length m = 20 /\ Forall (fun row => length row = 30) m /\
      exists n, n <= length tagline /\ letters m = take n tagline.
Proof.
  unfold main_setup.
  pose proof (make_fibers_spec 10 h 0) as Hf.
  destruct (make_fibers h 0 10) as [h1 fibers].
  destruct Hf as (Hflen & Hfl & _).
  destruct (setup_warp_gen 30 h1 (Weave_constructor (Some 30) (Some 20) (Some cell_)) 0
              eq_refl ltac:(intros j Hj; lia))
    as (h2 & w2 & Hrun2 & Hc2 & Hr2 & _ & Hwp2 & _ & _ & Hsl2 & Hfr2).
  change (cols (Weave_constructor (Some 30) (Some 20) (Some cell_))) with 30.
  rewrite Hrun2. cbn beta iota.
  destruct (setup_weft_gen (rows w2) h2 w2 0 ltac:(rewrite Hwp2; reflexivity)
              ltac:(intros q pass Hq; rewrite Hwp2 in Hq; simpl in Hq; discriminate))
    as (h3 & w3 & Hrun3 & Hc3 & Hr3 & _ & Hwa3 & _ & Hl3 & Hps3 & Hfr3).
  rewrite Hrun3. cbn beta iota.
  pose proof (generatePatternMatrix_inv draws w3) as Hg.
  destruct (generatePatternMatrix draws w3) as [w4 m].
  destruct Hg as (Hpat & Hc4 & Hr4 & _ & Hwa4 & Hwp4 & Hm1 & Hm2 & Hm3).
  simpl in Hc2, Hr2.
  exists h3, fibers, w4. split; [reflexivity|].
  split; [exact Hflen|].
  split.
  { intros i l Hi. pose proof (Hfl i l Hi) as H1. simpl in H1.
    assert (H3 : h3 !! l = Some (constructor Fiber ("f" +:+ N_toString (N.of_nat i)) None)).
    { rewrite Hfr3; rewrite Hfr2; rewrite ?H1; eauto. }
    split; [exact H3|]. rewrite (exec_call_at h3 l _ _ H3). reflexivity. }
  split; [congruence|]. split; [congruence|].
  split.
  { intros i Hi. destruct (Hsl2 i Hi) as (l & Hw & Hh).
    assert (Hh3 : h3 !! l = Some (warp_fiber_after_setup i))
      by (rewrite Hfr3; [exact Hh | rewrite Hh; eauto]).
    rewrite (warp_stroke_at h3 w4 i l (warp_fiber_after_setup i));
      [reflexivity | congruence | exact Hh3]. }
  split; [rewrite Hwp4, Hl3, Hr2; reflexivity|].
  split.
  { intros q pass Hq. rewrite Hwp4 in Hq. destruct (Hps3 q pass Hq) as [Hlen Hk].
    rewrite Hc2 in Hlen. destruct pass as [|l pass']; [discriminate|].
    unfold weft_stroke. simpl. rewrite (Hk 0 l eq_refl). reflexivity. }
  exists m. split; [exact Hpat|]. split; [congruence|]. split; [|exact Hm3].
  rewrite Hc3, Hc2 in Hm2. exact Hm2.
Qed.

End WeaveProofs.
